(** * growerlab/letsgit: the user store and the login flow

  A shallow embedding of [app/model/user/user.go] and of the login
  service ([validate], [Login], [buildSession]).

  The relational store is a record of tables; a table is the list of its
  rows in the store's default order.  A query built with the squirrel
  builder is kept as data ([sq.Sqlizer]) and evaluated row by row.
  Everything the Go code does to the outside world (the database, the
  clock, the UUID source, the response cookies) is threaded through a
  state-and-error monad over [World]. *)

From Stdlib Require Import ZArith String List Bool Lia.
From stdpp Require Import base gmap.
Import ListNotations.
Local Open Scope Z_scope.
Local Open Scope string_scope.

(** ** Errors (package [app/common/errors]) *)

Module errors.

Inductive Model := User.
Inductive Field := Password.
Inductive Reason := NotActivated | NotEqual.

(** The error values the two source files build.  [DriverErr] is the
    error a failed [sqlx] call hands back; [Wrap c] is
    [errors.Wrap(c, errors.SQLError())] and [New] is
    [errors.New(errors.SQLError())]. *)
Inductive Error :=
| DriverErr
| Wrap (cause : Error)
| New
| NotFoundError (m : Model)
| AccessDenied (m : Model) (r : Reason)
| InvalidParameterError (m : Model) (f : Field) (r : Reason).

End errors.

(** What makes a Go call stop without returning: the nil dereferences the
  three functions can run into. *)
Inductive PanicKind :=
| NilUserElement      (* [u.ID] on a nil element of the input slice *)
| NilMapEntry         (* [userMap[n.OwnerID].ns = n] on an absent key *)
| NilNamespace        (* [ns.Path] on a nil namespace *)
| Unallocated.        (* an address without an object *)

Inductive Res (A : Type) :=
| Ok (a : A)
| Err (e : errors.Error)
| Panic (p : PanicKind).
Arguments Ok {A} a.
Arguments Err {A} e.
Arguments Panic {A} p.

(** ** Rows *)

Module Namespace.
Inductive OwnerKind := TypeUser | TypeOther.

(** Modelled from the spec: the [Namespace] struct is declared in package
    [namespace], whose source is not embedded here; section 3 gives it an
    owner id, an owner type and a path. *)
Record t := mk {
  OwnerID : Z;
  OwnerType : OwnerKind;
  Path : string
}.
End Namespace.

Module Session.
(** The fields [buildSession] fills. *)
Record t := mk {
  OwnerID : Z;
  Token : string;
  ClientIP : string;
  CreatedAt : Z;
  ExpiredAt : Z
}.
End Session.

Module User.
(** Modelled from the spec: the [User] struct is declared in the model
    file of package [user], which is not embedded here.  Its columns are
    the entries of [columns]; the nullable ones are those [AddUser]
    inserts as [nil]; [ns] is the private namespace reference that
    [fillNamespaceInUsers] writes. *)
Record t := mk {
  ID : Z;
  Email : string;
  EncryptedPassword : string;
  Username : string;
  Name : string;
  PublicEmail : bool;
  CreatedAt : Z;
  DeletedAt : option Z;
  VerifiedAt : option Z;
  LastLoginAt : option Z;
  LastLoginIP : option string;
  RegisterIP : string;
  IsAdmin : bool;
  NamespaceID : Z;
  ns : option Namespace.t
}.

(** Modelled from the spec: [Verified] is declared next to the struct;
    "Verified account: a user whose verification timestamp is non-null". *)
Definition Verified (u : t) : bool :=
  match VerifiedAt u with Some _ => true | None => false end.

Definition set_VerifiedAt (v : option Z) (u : t) : t :=
  mk (ID u) (Email u) (EncryptedPassword u) (Username u) (Name u)
     (PublicEmail u) (CreatedAt u) (DeletedAt u) v (LastLoginAt u)
     (LastLoginIP u) (RegisterIP u) (IsAdmin u) (NamespaceID u) (ns u).

Definition set_LastLoginAt (v : option Z) (u : t) : t :=
  mk (ID u) (Email u) (EncryptedPassword u) (Username u) (Name u)
     (PublicEmail u) (CreatedAt u) (DeletedAt u) (VerifiedAt u) v
     (LastLoginIP u) (RegisterIP u) (IsAdmin u) (NamespaceID u) (ns u).

Definition set_LastLoginIP (v : option string) (u : t) : t :=
  mk (ID u) (Email u) (EncryptedPassword u) (Username u) (Name u)
     (PublicEmail u) (CreatedAt u) (DeletedAt u) (VerifiedAt u)
     (LastLoginAt u) v (RegisterIP u) (IsAdmin u) (NamespaceID u) (ns u).

Definition set_NamespaceID (v : Z) (u : t) : t :=
  mk (ID u) (Email u) (EncryptedPassword u) (Username u) (Name u)
     (PublicEmail u) (CreatedAt u) (DeletedAt u) (VerifiedAt u)
     (LastLoginAt u) (LastLoginIP u) (RegisterIP u) (IsAdmin u) v (ns u).

Definition set_ns (v : option Namespace.t) (u : t) : t :=
  mk (ID u) (Email u) (EncryptedPassword u) (Username u) (Name u)
     (PublicEmail u) (CreatedAt u) (DeletedAt u) (VerifiedAt u)
     (LastLoginAt u) (LastLoginIP u) (RegisterIP u) (IsAdmin u)
     (NamespaceID u) v.
End User.

(** ** Columns and conditions (squirrel) *)

Module sq.

Inductive Column :=
| id | email | encrypted_password | username | name | public_email
| created_at | deleted_at | verified_at | last_login_at | last_login_ip
| register_ip | is_admin | namespace_id.

Definition Column_eqb (a b : Column) : bool :=
  match a, b with
  | id, id | email, email | encrypted_password, encrypted_password
  | username, username | name, name | public_email, public_email
  | created_at, created_at | deleted_at, deleted_at
  | verified_at, verified_at | last_login_at, last_login_at
  | last_login_ip, last_login_ip | register_ip, register_ip
  | is_admin, is_admin | namespace_id, namespace_id => true
  | _, _ => false
  end.

(** A bound argument or a column value; [VNull] is Go's [nil] and SQL's
    NULL. *)
Inductive Value :=
| VNull
| VInt (z : Z)
| VStr (s : string)
| VBool (b : bool).

Definition of_opt {A} (f : A -> Value) (o : option A) : Value :=
  match o with Some a => f a | None => VNull end.

Definition column_value (c : Column) (u : User.t) : Value :=
  match c with
  | id => VInt (User.ID u)
  | email => VStr (User.Email u)
  | encrypted_password => VStr (User.EncryptedPassword u)
  | username => VStr (User.Username u)
  | name => VStr (User.Name u)
  | public_email => VBool (User.PublicEmail u)
  | created_at => VInt (User.CreatedAt u)
  | deleted_at => of_opt VInt (User.DeletedAt u)
  | verified_at => of_opt VInt (User.VerifiedAt u)
  | last_login_at => of_opt VInt (User.LastLoginAt u)
  | last_login_ip => of_opt VStr (User.LastLoginIP u)
  | register_ip => VStr (User.RegisterIP u)
  | is_admin => VBool (User.IsAdmin u)
  | namespace_id => VInt (User.NamespaceID u)
  end.

(** [sq.Eq{c: v}] renders [c = ?] for a value and [c IS NULL] for [nil];
    a NULL column equals no bound value. *)
Definition matches (cv v : Value) : bool :=
  match cv, v with
  | VNull, VNull => true
  | VInt a, VInt b => Z.eqb a b
  | VStr a, VStr b => String.eqb a b
  | VBool a, VBool b => Bool.eqb a b
  | _, _ => false
  end.

#[warnings="-register-all"] Inductive Sqlizer :=
| Eq (c : Column) (v : Value)
| And (cs : list Sqlizer).

Fixpoint holds (cond : Sqlizer) (u : User.t) : bool :=
  match cond with
  | Eq c v => matches (column_value c u) v
  | And cs => forallb (fun c => holds c u) cs
  end.

End sq.

(** ** The store and the world around a call *)

Record Store := mkStore {
  users : list User.t;            (* table "user" *)
  sessions : list Session.t;      (* table session *)
  namespaces : list Namespace.t   (* table namespace *)
}.

(** A [Set-Cookie] header as [gin.Context.SetCookie] receives it. *)
Record Cookie := mkCookie {
  cookie_name : string;
  cookie_value : string;
  cookie_maxAge : Z;
  cookie_path : string;
  cookie_domain : string;
  cookie_secure : bool;
  cookie_httpOnly : bool
}.

(** [faults] is the fate of the database calls to come, one flag per call
    in program order ([true]: the driver reports an error and the statement
    has no effect); past its end every call goes through.  [clock] gives
    the Unix time of the n-th reading of [time.Now()], [uuids] the n-th
    value of [uuid.UUID()]. *)
Record World := mkWorld {
  store : Store;
  faults : list bool;
  clock : nat -> Z;
  ticks : nat;
  uuids : nat -> string;
  drawn : nat;
  cookies : list Cookie
}.

Definition set_store (s : Store) (w : World) : World :=
  mkWorld s (faults w) (clock w) (ticks w) (uuids w) (drawn w) (cookies w).
Definition set_faults (f : list bool) (w : World) : World :=
  mkWorld (store w) f (clock w) (ticks w) (uuids w) (drawn w) (cookies w).
Definition set_ticks (n : nat) (w : World) : World :=
  mkWorld (store w) (faults w) (clock w) n (uuids w) (drawn w) (cookies w).
Definition set_drawn (n : nat) (w : World) : World :=
  mkWorld (store w) (faults w) (clock w) (ticks w) (uuids w) n (cookies w).
Definition set_cookies (c : list Cookie) (w : World) : World :=
  mkWorld (store w) (faults w) (clock w) (ticks w) (uuids w) (drawn w) c.

(** ** The monad *)

Definition M (A : Type) : Type := World -> Res A * World.

Definition ret {A} (a : A) : M A := fun w => (Ok a, w).

Definition bind {A B} (m : M A) (k : A -> M B) : M B :=
  fun w =>
    match m w with
    | (Ok a, w') => k a w'
    | (Err e, w') => (Err e, w')
    | (Panic p, w') => (Panic p, w')
    end.

Definition fail {A} (e : errors.Error) : M A := fun w => (Err e, w).

(** [if err != nil { return ..., f(err) }] around a call. *)
Definition map_err {A} (f : errors.Error -> errors.Error) (m : M A) : M A :=
  fun w =>
    match m w with
    | (Err e, w') => (Err (f e), w')
    | r => r
    end.

#[global] Instance M_ret : MRet M := @ret.
#[global] Instance M_bind : MBind M := fun A B k m => bind m k.

(** [time.Now().Unix()] *)
Definition time_Now_Unix : M Z :=
  fun w => (Ok (clock w (ticks w)), set_ticks (S (ticks w)) w).

(** [uuid.UUID()] *)
Definition uuid_UUID : M string :=
  fun w => (Ok (uuids w (drawn w)), set_drawn (S (drawn w)) w).

Definition next_fault (w : World) : bool * World :=
  match faults w with
  | [] => (false, w)
  | b :: fs => (b, set_faults fs w)
  end.

(** [sqlx.Select(src, &result, sql, args...)]: the rows of the query, or
    the driver's error. *)
Definition sqlx_Select {A} (query : Store -> list A) : M (list A) :=
  fun w =>
    let (bad, w') := next_fault w in
    if bad then (Err errors.DriverErr, w') else (Ok (query (store w')), w').

(** [tx.Exec(sql, args...)]: the statement applied to the store, or the
    driver's error. *)
Definition sqlx_Exec (stmt : Store -> Store) : M unit :=
  fun w =>
    let (bad, w') := next_fault w in
    if bad then (Err errors.DriverErr, w')
    else (Ok tt, set_store (stmt (store w')) w').

(** ** The user store ([app/model/user/user.go]) *)

Definition columns : list sq.Column :=
  [ sq.id; sq.email; sq.encrypted_password; sq.username; sq.name;
    sq.public_email; sq.created_at; sq.deleted_at; sq.verified_at;
    sq.last_login_at; sq.last_login_ip; sq.register_ip; sq.is_admin;
    sq.namespace_id ].

(** Modelled from the spec: [NormalUser] is declared in the model file of
    package [user], which is not embedded here; "Normal user: a user row
    not soft-deleted", soft deletion being a non-null deleted timestamp. *)
Definition NormalUser : sq.Sqlizer := sq.Eq sq.deleted_at sq.VNull.

(** Modelled from the spec: [InactivateUser] is declared next to
    [NormalUser]; activation is "conditioned on currently inactive", an
    active user being one whose verified timestamp is non-null. *)
Definition InactivateUser : sq.Sqlizer := sq.Eq sq.verified_at sq.VNull.

Definition selected (cols : list sq.Column) (c : sq.Column) : bool :=
  existsb (sq.Column_eqb c) cols.

(** What [sqlx] scans out of a row: a fresh struct with the selected
    columns filled in, the other fields (and the private [ns]) zero. *)
Definition scan (cols : list sq.Column) (r : User.t) : User.t :=
  User.mk
    (if selected cols sq.id then User.ID r else 0)
    (if selected cols sq.email then User.Email r else "")
    (if selected cols sq.encrypted_password then User.EncryptedPassword r else "")
    (if selected cols sq.username then User.Username r else "")
    (if selected cols sq.name then User.Name r else "")
    (if selected cols sq.public_email then User.PublicEmail r else false)
    (if selected cols sq.created_at then User.CreatedAt r else 0)
    (if selected cols sq.deleted_at then User.DeletedAt r else None)
    (if selected cols sq.verified_at then User.VerifiedAt r else None)
    (if selected cols sq.last_login_at then User.LastLoginAt r else None)
    (if selected cols sq.last_login_ip then User.LastLoginIP r else None)
    (if selected cols sq.register_ip then User.RegisterIP r else "")
    (if selected cols sq.is_admin then User.IsAdmin r else false)
    (if selected cols sq.namespace_id then User.NamespaceID r else 0)
    None.

(** [SELECT cols FROM "user" WHERE cond] *)
Definition select_users (cols : list sq.Column) (cond : sq.Sqlizer)
    (s : Store) : list User.t :=
  map (scan cols) (List.filter (sq.holds cond) (users s)).

(** [users[0]] when [len(users) > 0], else [nil]. *)
Definition first_or_nil {A} (l : list A) : option A :=
  match l with
  | x :: _ => Some x
  | [] => None
  end.

Definition listUsersByCond (tableColumns : list sq.Column)
    (cond : sq.Sqlizer) : M (list User.t) :=
  map_err errors.Wrap
    (sqlx_Select (select_users tableColumns (sq.And [cond; NormalUser]))).

Definition getUser (cond : sq.Sqlizer) : M (option User.t) :=
  users ← listUsersByCond columns cond;
  mret (first_or_nil users).

Definition GetUserByEmail (email : string) : M (option User.t) :=
  getUser (sq.Eq sq.email (sq.VStr email)).

Definition GetUserByUsername (username : string) : M (option User.t) :=
  getUser (sq.Eq sq.username (sq.VStr username)).

Definition GetUser (id : Z) : M (option User.t) :=
  getUser (sq.Eq sq.id (sq.VInt id)).

Definition ExistsEmailOrUsername (username email : string) : M bool :=
  byName ← (if (0 <? String.length username)%nat
            then getUser (sq.Eq sq.username (sq.VStr username))
            else mret None);
  match byName with
  | Some _ => mret true
  | None =>
      byMail ← (if (0 <? String.length email)%nat
                then getUser (sq.Eq sq.email (sq.VStr email))
                else mret None);
      match byMail with
      | Some _ => mret true
      | None => mret false
      end
  end.

(** One [SET c = v] on a row.  The source assigns a value of the column's
    own type (or, for a nullable column, [nil]); any other pair leaves the
    row as it is. *)
Definition set_column (c : sq.Column) (v : sq.Value) (u : User.t) : User.t :=
  match c, v with
  | sq.verified_at, sq.VInt z => User.set_VerifiedAt (Some z) u
  | sq.verified_at, sq.VNull => User.set_VerifiedAt None u
  | sq.last_login_at, sq.VInt z => User.set_LastLoginAt (Some z) u
  | sq.last_login_at, sq.VNull => User.set_LastLoginAt None u
  | sq.last_login_ip, sq.VStr s => User.set_LastLoginIP (Some s) u
  | sq.last_login_ip, sq.VNull => User.set_LastLoginIP None u
  | sq.namespace_id, sq.VInt z => User.set_NamespaceID z u
  | _, _ => u
  end.

Definition set_columns (valueMap : list (sq.Column * sq.Value))
    (u : User.t) : User.t :=
  fold_left (fun r cv => set_column (fst cv) (snd cv) r) valueMap u.

(** [UPDATE "user" SET valueMap WHERE cond] *)
Definition update_users (valueMap : list (sq.Column * sq.Value))
    (cond : sq.Sqlizer) (s : Store) : Store :=
  mkStore
    (map (fun r => if sq.holds cond r then set_columns valueMap r else r)
         (users s))
    (sessions s) (namespaces s).

Definition ActivateUser (userID : Z) : M unit :=
  now ← time_Now_Unix;
  map_err errors.Wrap
    (sqlx_Exec
       (update_users [(sq.verified_at, sq.VInt now)]
          (sq.And [sq.Eq sq.id (sq.VInt userID); InactivateUser]))).

Definition uint64_mul (a b : N) : N := ((a * b) mod 2 ^ 64)%N.

Section ListAll.

(** What [errors.Wrap] gives back for a nil error.  Package
    [app/common/errors] is not embedded here, and [ListAllUsers]
    wraps its error without testing it first. *)
Variable Wrap_nil : option errors.Error.

Definition errors_Wrap (err : option errors.Error) : option errors.Error :=
  match err with
  | Some e => Some (errors.Wrap e)
  | None => Wrap_nil
  end.

(** Returns the pair [(users, err)] as the Go function does. *)
Definition ListAllUsers (page per : N)
    : World -> (list User.t * option errors.Error) * World :=
  fun w =>
    let query := fun s =>
      firstn (N.to_nat per)
        (skipn (N.to_nat (uint64_mul page per))
           (select_users columns NormalUser s)) in
    match sqlx_Select query w with
    | (Ok rows, w') => ((rows, errors_Wrap None), w')
    | (Err e, w') => (([], errors_Wrap (Some e)), w')
    | (Panic p, w') => (([], None), w')
    end.

End ListAll.

Definition update (cond : sq.Sqlizer)
    (valueMap : list (sq.Column * sq.Value)) : M unit :=
  map_err errors.Wrap (sqlx_Exec (update_users valueMap cond)).

Definition UpdateLogin (userID : Z) (clientIP : string) : M unit :=
  now ← time_Now_Unix;
  update (sq.Eq sq.id (sq.VInt userID))
    [(sq.last_login_at, sq.VInt now); (sq.last_login_ip, sq.VStr clientIP)].

Definition UpdateNamespace (userID namespaceID : Z) : M unit :=
  update (sq.Eq sq.id (sq.VInt userID))
    [(sq.namespace_id, sq.VInt namespaceID)].

(** [SELECT "user".cols FROM "user" JOIN session ON session.token = ? AND
    session.expired_at >= ? WHERE "user".id = session.owner_id]: one row
    per pair of a user row and a session row that satisfy both, here user
    by user in table order (SQL leaves the order open; it only matters
    when several pairs qualify). *)
Definition select_users_join_session (cols : list sq.Column)
    (userToken : string) (now : Z) (s : Store) : list User.t :=
  flat_map
    (fun r =>
       map (fun _ => scan cols r)
         (List.filter
            (fun se =>
               String.eqb (Session.Token se) userToken
               && (now <=? Session.ExpiredAt se)%Z
               && (User.ID r =? Session.OwnerID se)%Z)
            (sessions s)))
    (users s).

Definition GetUserByUserToken (userToken : string) : M (option User.t) :=
  now ← time_Now_Unix;
  users ← map_err (fun _ => errors.New)
             (sqlx_Select (select_users_join_session columns userToken now));
  mret (first_or_nil users).

(** ** Namespace enrichment: Go memory

    [fillNamespaceInUsers] works on a slice of pointers and writes through
    them, so it is run on a heap of [User] objects.  A pointer is [None]
    (nil) or the address of an object. *)

Definition ptr : Type := option nat.

Definition lift_res {A} (r : Res A) : M A := fun w => (r, w).

(** The first loop: [userIDs = append(userIDs, u.ID); userMap[u.ID] = u].
    [Unallocated] stands for an address without an object, which no Go
    pointer holds; the case only makes the function total. *)
Fixpoint collect_users (h : gmap nat User.t) (users : list ptr)
    (userIDs : list Z) (userMap : gmap Z ptr)
    : Res (list Z * gmap Z ptr) :=
  match users with
  | [] => Ok (userIDs, userMap)
  | u :: rest =>
      match u with
      | None => Panic NilUserElement
      | Some a =>
          match h !! a with
          | None => Panic Unallocated
          | Some obj =>
              collect_users h rest (userIDs ++ [User.ID obj])
                (<[User.ID obj := u]> userMap)
          end
      end
  end.

(** Indexing a Go map: the zero value, here nil, for an absent key. *)
Definition map_index (userMap : gmap Z ptr) (k : Z) : ptr :=
  default None (userMap !! k).

(** The second loop: [userMap[n.OwnerID].ns = n]. *)
Fixpoint fill_namespaces (userMap : gmap Z ptr) (ns : list Namespace.t)
    (h : gmap nat User.t) : Res (gmap nat User.t) :=
  match ns with
  | [] => Ok h
  | n :: rest =>
      match map_index userMap (Namespace.OwnerID n) with
      | None => Panic NilMapEntry
      | Some a =>
          fill_namespaces userMap rest (alter (User.set_ns (Some n)) a h)
      end
  end.

(** [sqlx] hands back the rows as fresh objects. *)
Fixpoint alloc_all (rows : list User.t) (h : gmap nat User.t)
    : list ptr * gmap nat User.t :=
  match rows with
  | [] => ([], h)
  | r :: rest =>
      let a := fresh (dom h) in
      let (ps, h') := alloc_all rest (<[a := r]> h) in
      (Some a :: ps, h')
  end.

(** A Go call returning [(value, err)], followed by
    [if err != nil { return err }]. *)
Definition go_call {A} (f : World -> (A * option errors.Error) * World)
    : M A :=
  fun w =>
    match f w with
    | ((_, Some err), w') => (Err err, w')
    | ((a, None), w') => (Ok a, w')
    end.

Section Enrichment.

(** [namespace.ListNamespacesByOwner(src, ownerType, ids...)], a function
    of package [namespace], which is not embedded here; it returns the
    namespaces and an error. *)
Variable ListNamespacesByOwner :
  Namespace.OwnerKind -> list Z ->
  World -> (list Namespace.t * option errors.Error) * World.

Definition fillNamespaceInUsers (users : list ptr) (h : gmap nat User.t)
    : M (gmap nat User.t) :=
  collected ← lift_res (collect_users h users [] ∅);
  ns ← go_call (ListNamespacesByOwner Namespace.TypeUser (fst collected));
  lift_res (fill_namespaces (snd collected) ns h).

Definition ListAdminUsers (h : gmap nat User.t)
    : M (list ptr * gmap nat User.t) :=
  rows ← listUsersByCond columns
            (sq.And [sq.Eq sq.is_admin (sq.VBool true)]);
  let (users, h1) := alloc_all rows h in
  h2 ← fillNamespaceInUsers users h1;
  mret (users, h2).

End Enrichment.

(** ** The login service *)

(** What [Login] reads from the [gin.Context]. *)
Record Context := mkContext {
  ctx_ClientIP : string;       (* ctx.ClientIP() *)
  ctx_Request_Host : string    (* ctx.Request.Host *)
}.

Record LoginUserPayload := mkLoginUserPayload {
  req_Email : string;
  req_Password : string
}.

Record UserLoginResult := mkUserLoginResult {
  res_Token : string;
  res_NamespacePath : string;
  res_Name : string;
  res_Email : string;
  res_PublicEmail : bool
}.

(** [time.Duration] counts nanoseconds. *)
Definition Second : Z := 1000000000.
Definition Hour : Z := 3600 * Second.
Definition TokenExpiredTime : Z := 24 * Hour * 30.
Definition tokenField : string := "auth-user-token".

(** [strings.HasPrefix] and [strings.Contains] *)
Fixpoint HasPrefix (s prefix : string) : bool :=
  match prefix, s with
  | EmptyString, _ => true
  | String c p', String d s' => Ascii.eqb c d && HasPrefix s' p'
  | String _ _, EmptyString => false
  end.

Fixpoint Contains (s substr : string) : bool :=
  HasPrefix s substr
  || match s with
     | EmptyString => false
     | String _ s' => Contains s' substr
     end.

(** [ctx.SetCookie(name, value, maxAge, path, domain, secure, httpOnly)]
    adds one [Set-Cookie] header to the response. *)
Definition SetCookie (name value : string) (maxAge : Z)
    (path domain : string) (secure httpOnly : bool) : M unit :=
  fun w =>
    (Ok tt,
     set_cookies
       (cookies w ++ [mkCookie name value maxAge path domain secure httpOnly])
       w).

(** [time.Now().Add(d).Unix()]; the clock is read in whole seconds, which
    is exact for a duration of whole seconds. *)
Definition time_Now_Add_Unix (d : Z) : M Z :=
  now ← time_Now_Unix;
  mret (now + d / Second).

Definition buildSession (userID : Z) (clientIP : string) : M Session.t :=
  token ← uuid_UUID;
  createdAt ← time_Now_Unix;
  expiredAt ← time_Now_Add_Unix TokenExpiredTime;
  mret (Session.mk userID token clientIP createdAt expiredAt).

(** Modelled from the spec: [AddSession] is a function of package
    [session], which is not embedded here; the session store's operation is
    to "insert a new session row", a database failure being an SQLError. *)
Definition AddSession (sess : Session.t) : M unit :=
  map_err errors.Wrap
    (sqlx_Exec
       (fun s => mkStore (users s) (sessions s ++ [sess]) (namespaces s))).

(** Modelled from the spec: [Transact] is a function of package [db],
    which is not embedded here.  The steps run "inside a single
    transaction; a failure at any step rolls back the last-login update
    and the session insert together": when the body does not return
    normally the store is put back as it was when the transaction began. *)
Definition Transact {A} (txFn : M A) : M A :=
  fun w =>
    match txFn w with
    | (Ok a, w') => (Ok a, w')
    | (Err e, w') => (Err e, set_store (store w) w')
    | (Panic p, w') => (Panic p, set_store (store w) w')
    end.

Section LoginFlow.

(** [pwd.ComparePassword(hash, password)], of package [pwd], which is not
    embedded here. *)
Variable ComparePassword : string -> string -> bool.

(** [user.Namespace()], a method declared next to the [User] struct and
    not embedded here: the user's namespace as the store has it,
    nil when there is none to return. *)
Variable Namespace_of : Store -> User.t -> option Namespace.t.

Definition validate (usernameOrEmail password : string) : M User.t :=
  user ← (if Contains usernameOrEmail "@"
          then GetUserByEmail usernameOrEmail
          else GetUserByUsername usernameOrEmail);
  match user with
  | None => fail (errors.NotFoundError errors.User)
  | Some u =>
      if negb (User.Verified u)
      then fail (errors.AccessDenied errors.User errors.NotActivated)
      else if negb (ComparePassword (User.EncryptedPassword u) password)
      then fail (errors.InvalidParameterError errors.User errors.Password
                   errors.NotEqual)
      else mret u
  end.

(** [user.Namespace()] followed by the read of [ns.Path]. *)
Definition user_Namespace (user : User.t) : M Namespace.t :=
  fun w =>
    match Namespace_of (store w) user with
    | Some n => (Ok n, w)
    | None => (Panic NilNamespace, w)
    end.

(** The closure [Login] hands to [db.Transact]. *)
Definition login_tx (ctx : Context) (user : User.t) (clientIP : string)
    : M UserLoginResult :=
  UpdateLogin (User.ID user) clientIP;;
  sess ← buildSession (User.ID user) clientIP;
  AddSession sess;;
  ns ← user_Namespace user;
  let result :=
    mkUserLoginResult (Session.Token sess) (Namespace.Path ns)
      (User.Name user) (User.Email user) (User.PublicEmail user) in
  SetCookie tokenField (Session.Token sess) 0 "/" (ctx_Request_Host ctx)
    false false;;
  mret result.

Definition Login (ctx : Context) (req : LoginUserPayload)
    : M UserLoginResult :=
  let clientIP := ctx_ClientIP ctx in
  user ← validate (req_Email req) (req_Password req);
  Transact (login_tx ctx user clientIP).

End LoginFlow.

(** ** Notions the properties are stated with *)

(** Every database call still to come goes through. *)
Definition db_up (w : World) : Prop := Forall (fun b => b = false) (faults w).

(** [r] owns a session carrying [tok] that has not expired at [now]. *)
Definition owns_live_session (s : Store) (tok : string) (now : Z)
    (r : User.t) : Prop :=
  exists se, In se (sessions s) /\ Session.Token se = tok
             /\ now <= Session.ExpiredAt se
             /\ Session.OwnerID se = User.ID r.


(** [r] is not soft-deleted. *)
Definition is_normal (r : User.t) : bool :=
  match User.DeletedAt r with
  | None => true
  | Some _ => false
  end.

(** The column [validate] looks the identifier up in: the email when the
    identifier has an "@", the username otherwise. *)
Definition identifies (usernameOrEmail : string) (r : User.t) : bool :=
  if Contains usernameOrEmail "@"
  then String.eqb (User.Email r) usernameOrEmail
  else String.eqb (User.Username r) usernameOrEmail.

(** The first normal row, in store order, that the identifier matches. *)
Definition matching_user (s : Store) (usernameOrEmail : string)
    : option User.t :=
  find (fun r => identifies usernameOrEmail r && is_normal r) (users s).

(** The session [Login] builds when it starts in [w]: the clock is read
    once for the last-login update, then for [CreatedAt], then for
    [ExpiredAt]. *)
Definition issued_session (w : World) (userID : Z) (clientIP : string)
    : Session.t :=
  Session.mk userID (uuids w (drawn w)) clientIP
    (clock w (S (ticks w)))
    (clock w (S (S (ticks w))) + 30 * 24 * 3600).

(** The two writes of a login, applied together: the last-login fields of
    the rows with that id, and the new session row. *)
Definition login_writes (s : Store) (userID : Z) (clientIP : string)
    (loginAt : Z) (sess : Session.t) : Store :=
  mkStore
    (map (fun r =>
            if (User.ID r =? userID)%Z
            then User.set_LastLoginIP (Some clientIP)
                   (User.set_LastLoginAt (Some loginAt) r)
            else r)
         (users s))
    (sessions s ++ [sess])
    (namespaces s).

(** The rows that are not soft-deleted, in store order. *)
Definition normal_users (s : Store) : list User.t :=
  List.filter is_normal (users s).

(** The row-level effect of the activation statement. *)
Definition activate_row (userID now : Z) (r : User.t) : User.t :=
  if sq.holds (sq.And [sq.Eq sq.id (sq.VInt userID); InactivateUser]) r
  then set_columns [(sq.verified_at, sq.VInt now)] r
  else r.

(** ** Sample data *)

Definition alice : User.t :=
  User.mk 1 "alice@example.org" "hash(wonderland)" "alice" "Alice" true 10
    None (Some 20) None None "10.0.0.1" false 1 None.

(** Soft-deleted at time 50. *)
Definition bob : User.t :=
  User.mk 2 "bob@example.org" "hash(builder)" "bob" "Bob" false 11
    (Some 50) (Some 21) None None "10.0.0.2" true 2 None.

(** Never verified. *)
Definition carol : User.t :=
  User.mk 3 "carol@example.org" "hash(singer)" "carol" "Carol" false 12
    None None None None "10.0.0.3" true 3 None.

Definition sample_store : Store :=
  mkStore [alice; bob; carol]
    [ Session.mk 1 "token-a" "10.0.0.1" 0 100;
      Session.mk 2 "token-b" "10.0.0.2" 0 1000 ]
    [ Namespace.mk 1 Namespace.TypeUser "alice";
      Namespace.mk 3 Namespace.TypeUser "carol" ].

(** A healthy database; the clock reads 100, 101, 102, ... *)
Definition sample_world : World :=
  mkWorld sample_store [] (fun n => 100 + Z.of_nat n) 0
    (fun n => if Nat.eqb n 0 then "uuid-0" else "uuid-n") 0 [].

Definition sample_ComparePassword (hash password : string) : bool :=
  String.eqb hash ("hash(" ++ password ++ ")").

(** The namespace whose owner is the user. *)
Definition sample_Namespace_of (s : Store) (u : User.t)
    : option Namespace.t :=
  find (fun n => (Namespace.OwnerID n =? User.ID u)%Z) (namespaces s).

Definition sample_ctx : Context := mkContext "192.0.2.7" "git.example.org".

(** The lookup and the last-login update go through, the session insert
    fails. *)
Definition insert_fails_world : World :=
  set_faults [false; false; true] sample_world.

(** The namespaces of the given kind whose owner is among [ids]. *)
Definition sample_ListNamespacesByOwner (kind : Namespace.OwnerKind)
    (ids : list Z) (w : World)
    : (list Namespace.t * option errors.Error) * World :=
  ((List.filter
      (fun n =>
         match kind, Namespace.OwnerType n with
         | Namespace.TypeUser, Namespace.TypeUser
         | Namespace.TypeOther, Namespace.TypeOther =>
             existsb (Z.eqb (Namespace.OwnerID n)) ids
         | _, _ => false
         end)
      (namespaces (store w)),
    None),
   w).

(** A query that also hands back a namespace nobody asked for. *)
Definition stray_ListNamespacesByOwner (kind : Namespace.OwnerKind)
    (ids : list Z) (w : World)
    : (list Namespace.t * option errors.Error) * World :=
  (([Namespace.mk 1 Namespace.TypeUser "alice";
     Namespace.mk 99 Namespace.TypeUser "stray"], None), w).

Definition sample_heap : gmap nat User.t :=
  <[0%nat := alice]> (<[1%nat := carol]> ∅).

(** ** Registration ([AddUser]) *)

Definition zero_User : User.t :=
  User.mk 0 "" "" "" "" false 0 None None None None "" false 0 None.

Definition set_ID (v : Z) (u : User.t) : User.t :=
  User.mk v (User.Email u) (User.EncryptedPassword u) (User.Username u)
    (User.Name u) (User.PublicEmail u) (User.CreatedAt u) (User.DeletedAt u)
    (User.VerifiedAt u) (User.LastLoginAt u) (User.LastLoginIP u)
    (User.RegisterIP u) (User.IsAdmin u) (User.NamespaceID u) (User.ns u).

(** One column of an [INSERT]: the value goes into the column when it has
    the column's type (or is [nil] for a nullable column). *)
Definition put_column (c : sq.Column) (v : sq.Value) (u : User.t) : User.t :=
  match c, v with
  | sq.id, sq.VInt z => set_ID z u
  | sq.email, sq.VStr s =>
      User.mk (User.ID u) s (User.EncryptedPassword u) (User.Username u)
        (User.Name u) (User.PublicEmail u) (User.CreatedAt u)
        (User.DeletedAt u) (User.VerifiedAt u) (User.LastLoginAt u)
        (User.LastLoginIP u) (User.RegisterIP u) (User.IsAdmin u)
        (User.NamespaceID u) (User.ns u)
  | sq.encrypted_password, sq.VStr s =>
      User.mk (User.ID u) (User.Email u) s (User.Username u)
        (User.Name u) (User.PublicEmail u) (User.CreatedAt u)
        (User.DeletedAt u) (User.VerifiedAt u) (User.LastLoginAt u)
        (User.LastLoginIP u) (User.RegisterIP u) (User.IsAdmin u)
        (User.NamespaceID u) (User.ns u)
  | sq.username, sq.VStr s =>
      User.mk (User.ID u) (User.Email u) (User.EncryptedPassword u) s
        (User.Name u) (User.PublicEmail u) (User.CreatedAt u)
        (User.DeletedAt u) (User.VerifiedAt u) (User.LastLoginAt u)
        (User.LastLoginIP u) (User.RegisterIP u) (User.IsAdmin u)
        (User.NamespaceID u) (User.ns u)
  | sq.name, sq.VStr s =>
      User.mk (User.ID u) (User.Email u) (User.EncryptedPassword u)
        (User.Username u) s (User.PublicEmail u) (User.CreatedAt u)
        (User.DeletedAt u) (User.VerifiedAt u) (User.LastLoginAt u)
        (User.LastLoginIP u) (User.RegisterIP u) (User.IsAdmin u)
        (User.NamespaceID u) (User.ns u)
  | sq.public_email, sq.VBool b =>
      User.mk (User.ID u) (User.Email u) (User.EncryptedPassword u)
        (User.Username u) (User.Name u) b (User.CreatedAt u)
        (User.DeletedAt u) (User.VerifiedAt u) (User.LastLoginAt u)
        (User.LastLoginIP u) (User.RegisterIP u) (User.IsAdmin u)
        (User.NamespaceID u) (User.ns u)
  | sq.created_at, sq.VInt z =>
      User.mk (User.ID u) (User.Email u) (User.EncryptedPassword u)
        (User.Username u) (User.Name u) (User.PublicEmail u) z
        (User.DeletedAt u) (User.VerifiedAt u) (User.LastLoginAt u)
        (User.LastLoginIP u) (User.RegisterIP u) (User.IsAdmin u)
        (User.NamespaceID u) (User.ns u)
  | sq.deleted_at, v' =>
      User.mk (User.ID u) (User.Email u) (User.EncryptedPassword u)
        (User.Username u) (User.Name u) (User.PublicEmail u)
        (User.CreatedAt u)
        (match v' with sq.VInt z => Some z | _ => None end)
        (User.VerifiedAt u) (User.LastLoginAt u)
        (User.LastLoginIP u) (User.RegisterIP u) (User.IsAdmin u)
        (User.NamespaceID u) (User.ns u)
  | sq.register_ip, sq.VStr s =>
      User.mk (User.ID u) (User.Email u) (User.EncryptedPassword u)
        (User.Username u) (User.Name u) (User.PublicEmail u)
        (User.CreatedAt u) (User.DeletedAt u) (User.VerifiedAt u)
        (User.LastLoginAt u) (User.LastLoginIP u) s (User.IsAdmin u)
        (User.NamespaceID u) (User.ns u)
  | sq.is_admin, sq.VBool b =>
      User.mk (User.ID u) (User.Email u) (User.EncryptedPassword u)
        (User.Username u) (User.Name u) (User.PublicEmail u)
        (User.CreatedAt u) (User.DeletedAt u) (User.VerifiedAt u)
        (User.LastLoginAt u) (User.LastLoginIP u) (User.RegisterIP u) b
        (User.NamespaceID u) (User.ns u)
  | _, _ => set_column c v u
  end.

(** The row an [INSERT ... Columns(cols).Values(vals)] stores: the listed
    columns paired with the values in order, every other column at its
    default. *)
Definition insert_row (cols : list sq.Column) (vals : list sq.Value)
    (defaults : User.t) : User.t :=
  fold_left (fun r cv => put_column (fst cv) (snd cv) r) (combine cols vals)
    defaults.

(** [tx.QueryRowx(sql, args...).Scan(&dest)] for a statement that returns
    one value: the statement applied to the store and the value scanned,
    or the driver's error. *)
Definition sqlx_QueryRowx_Scan {A} (stmt : Store -> Store * A) : M A :=
  fun w =>
    let (bad, w') := next_fault w in
    if bad then (Err errors.DriverErr, w')
    else (Ok (snd (stmt (store w'))),
          set_store (fst (stmt (store w'))) w').

Section Registration.

(** The id the database gives the next inserted row: the default of the
    [id] column, which the [INSERT] leaves out.  The schema is not
    embedded here. *)
Variable next_id : Store -> Z.

(** [INSERT INTO "user" (columns[1:]) VALUES (...) RETURNING id] *)
Definition insert_user (user : User.t) (s : Store) : Store * Z :=
  let id := next_id s in
  let row :=
    insert_row (tl columns)
      [ sq.VStr (User.Email user);
        sq.VStr (User.EncryptedPassword user);
        sq.VStr (User.Username user);
        sq.VStr (User.Name user);
        sq.VBool (User.PublicEmail user);
        sq.VInt (User.CreatedAt user);
        sq.VNull;
        sq.VNull;
        sq.VNull;
        sq.VNull;
        sq.VStr (User.RegisterIP user);
        sq.VBool (User.IsAdmin user);
        sq.VInt (User.NamespaceID user) ]
      (set_ID id zero_User) in
  (mkStore (users s ++ [row]) (sessions s) (namespaces s), id).

(** Returns the struct as the call leaves it: [user.ID] holds the id the
    database returned. *)
Definition AddUser (user : User.t) : M User.t :=
  id ← map_err errors.Wrap (sqlx_QueryRowx_Scan (insert_user user));
  mret (set_ID id user).

End Registration.

(** ** Notions the further properties are stated with *)

(** The row [AddUser] stores for [user] under the id [id]: the struct's
    columns, with the deleted, verified and last-login columns null
    whatever the struct holds. *)
Definition registered_row (id : Z) (user : User.t) : User.t :=
  User.mk id (User.Email user) (User.EncryptedPassword user)
    (User.Username user) (User.Name user) (User.PublicEmail user)
    (User.CreatedAt user) None None None None (User.RegisterIP user)
    (User.IsAdmin user) (User.NamespaceID user) None.

(** [r] with its last-login columns blanked: what a login must not
    change. *)
Definition without_last_login (r : User.t) : User.t :=
  User.set_LastLoginIP None (User.set_LastLoginAt None r).

(** [r] with its private namespace reference blanked: the columns. *)
Definition columns_of (r : User.t) : User.t := User.set_ns None r.

(** ** Further sample data *)

(** One more than the largest id in the table. *)
Definition sample_next_id (s : Store) : Z :=
  fold_right Z.max 0 (map User.ID (users s)) + 1.

Definition dave : User.t :=
  User.mk 0 "dave@example.org" "hash(diver)" "dave" "Dave" true 13
    (Some 1) (Some 2) (Some 3) (Some "10.9.9.9") "10.0.0.4" false 4 None.

(** The sample world with a namespace waiting for the next user. *)
Definition prepared_world : World :=
  set_store
    (mkStore (users sample_store) (sessions sample_store)
       (namespaces sample_store ++ [Namespace.mk 4 Namespace.TypeUser "dave"]))
    sample_world.

(** A verified user whose username has an "@" in it. *)
Definition eve : User.t :=
  User.mk 5 "eve@example.org" "hash(apple)" "eve@corp" "Eve" false 14
    None (Some 30) None None "10.0.0.5" false 5 None.

Definition eve_world : World :=
  set_store
    (mkStore [alice; eve] [] [Namespace.mk 5 Namespace.TypeUser "eve"])
    sample_world.

(** [p] is the address of the object [obj] in the heap [h]. *)
Definition points_to (h : gmap nat User.t) (p : ptr) (obj : User.t) : Prop :=
  exists a, p = Some a /\ h !! a = Some obj.

(** [obj] with the last namespace of [ns] that it owns, if there is one,
    in its namespace reference. *)
Definition enriched (ns : list Namespace.t) (obj : User.t) : User.t :=
  match find (fun n => (Namespace.OwnerID n =? User.ID obj)%Z) (rev ns) with
  | Some n => User.set_ns (Some n) obj
  | None => obj
  end.

Definition dave_object : User.t :=
  User.set_ns (Some (Namespace.mk 9 Namespace.TypeUser "stale")) (set_ID 4 dave).

(** Alice and an object for dave that still carries a stale namespace. *)
Definition enrich_heap : gmap nat User.t :=
  <[0%nat := alice]> (<[1%nat := dave_object]> ∅).
(** ** Properties *)

(** *** The monad and the database primitives *)

Lemma bind_Ok {A B} (m : M A) (k : A -> M B) w a w' :
  m w = (Ok a, w') -> (m ≫= k) w = k a w'.
Proof. intros H. unfold mbind, M_bind, bind. now rewrite H. Qed.

Lemma bind_Err {A B} (m : M A) (k : A -> M B) w e w' :
  m w = (Err e, w') -> (m ≫= k) w = (Err e, w').
Proof. intros H. unfold mbind, M_bind, bind. now rewrite H. Qed.

Lemma bind_Panic {A B} (m : M A) (k : A -> M B) w p w' :
  m w = (Panic p, w') -> (m ≫= k) w = (Panic p, w').
Proof. intros H. unfold mbind, M_bind, bind. now rewrite H. Qed.

Lemma next_fault_up w :
  db_up w -> fst (next_fault w) = false /\ db_up (snd (next_fault w)).
Proof.
  unfold db_up, next_fault. destruct (faults w) as [|b fs] eqn:E; simpl.
  - intros _. split; [reflexivity|]. rewrite E. constructor.
  - intros H. inversion H; subst. split; [reflexivity|]. assumption.
Qed.

Lemma next_fault_frame w :
  let w' := snd (next_fault w) in
  store w' = store w /\ clock w' = clock w /\ ticks w' = ticks w
  /\ uuids w' = uuids w /\ drawn w' = drawn w /\ cookies w' = cookies w.
Proof. unfold next_fault. destruct (faults w); simpl; repeat split. Qed.

Lemma nf_store w : store (snd (next_fault w)) = store w.
Proof. apply next_fault_frame. Qed.
Lemma nf_clock w : clock (snd (next_fault w)) = clock w.
Proof. apply next_fault_frame. Qed.
Lemma nf_ticks w : ticks (snd (next_fault w)) = ticks w.
Proof. apply next_fault_frame. Qed.
Lemma nf_uuids w : uuids (snd (next_fault w)) = uuids w.
Proof. apply next_fault_frame. Qed.
Lemma nf_drawn w : drawn (snd (next_fault w)) = drawn w.
Proof. apply next_fault_frame. Qed.
Lemma nf_cookies w : cookies (snd (next_fault w)) = cookies w.
Proof. apply next_fault_frame. Qed.

Lemma nf_set_ticks n w :
  fst (next_fault (set_ticks n w)) = fst (next_fault w).
Proof. unfold next_fault. simpl. now destruct (faults w). Qed.
Lemma nf_set_drawn n w :
  fst (next_fault (set_drawn n w)) = fst (next_fault w).
Proof. unfold next_fault. simpl. now destruct (faults w). Qed.
Lemma nf_set_store s w :
  fst (next_fault (set_store s w)) = fst (next_fault w).
Proof. unfold next_fault. simpl. now destruct (faults w). Qed.

Lemma nf_comm_ticks n w :
  snd (next_fault (set_ticks n w)) = set_ticks n (snd (next_fault w)).
Proof. unfold next_fault. simpl. now destruct (faults w). Qed.
Lemma nf_comm_drawn n w :
  snd (next_fault (set_drawn n w)) = set_drawn n (snd (next_fault w)).
Proof. unfold next_fault. simpl. now destruct (faults w). Qed.
Lemma nf_comm_store s w :
  snd (next_fault (set_store s w)) = set_store s (snd (next_fault w)).
Proof. unfold next_fault. simpl. now destruct (faults w). Qed.

Create Rewrite HintDb world.
#[local] Hint Rewrite nf_store nf_clock nf_ticks nf_uuids nf_drawn nf_cookies
  nf_set_ticks nf_set_drawn nf_set_store
  nf_comm_ticks nf_comm_drawn nf_comm_store : world.

Ltac world_simpl := repeat (progress (simpl; autorewrite with world)).


Lemma db_up_next w : db_up w -> fst (next_fault w) = false.
Proof. intros H. apply next_fault_up, H. Qed.

Lemma db_up_after w : db_up w -> db_up (snd (next_fault w)).
Proof. intros H. apply next_fault_up, H. Qed.

Ltac calls_ok :=
  world_simpl;
  repeat first [ assumption | apply db_up_next | apply db_up_after ].

Lemma sqlx_Select_ok {A} (q : Store -> list A) w :
  fst (next_fault w) = false ->
  sqlx_Select q w = (Ok (q (store w)), snd (next_fault w)).
Proof.
  intros Hf. pose proof (next_fault_frame w) as (Hs & _).
  unfold sqlx_Select. destruct (next_fault w) as [bad w'].
  simpl in *. subst bad. now rewrite Hs.
Qed.

Lemma sqlx_Select_bad {A} (q : Store -> list A) w :
  fst (next_fault w) = true ->
  sqlx_Select q w = (Err errors.DriverErr, snd (next_fault w)).
Proof.
  intros Hf. unfold sqlx_Select. destruct (next_fault w) as [bad w'].
  simpl in *. now subst bad.
Qed.

Lemma sqlx_Exec_ok (f : Store -> Store) w :
  fst (next_fault w) = false ->
  sqlx_Exec f w = (Ok tt, set_store (f (store w)) (snd (next_fault w))).
Proof.
  intros Hf. pose proof (next_fault_frame w) as (Hs & _).
  unfold sqlx_Exec. destruct (next_fault w) as [bad w'].
  simpl in *. subst bad. now rewrite Hs.
Qed.

Lemma sqlx_Exec_bad (f : Store -> Store) w :
  fst (next_fault w) = true ->
  sqlx_Exec f w = (Err errors.DriverErr, snd (next_fault w)).
Proof.
  intros Hf. unfold sqlx_Exec. destruct (next_fault w) as [bad w'].
  simpl in *. now subst bad.
Qed.

Lemma map_err_Ok {A} f (m : M A) w a w' :
  m w = (Ok a, w') -> map_err f m w = (Ok a, w').
Proof. intros H. unfold map_err. now rewrite H. Qed.

Lemma bind_Ok_inv {A B} (m : M A) (k : A -> M B) w b w' :
  (m ≫= k) w = (Ok b, w') ->
  exists a w1, m w = (Ok a, w1) /\ k a w1 = (Ok b, w').
Proof.
  unfold mbind, M_bind, bind. destruct (m w) as [[a|e|p] w1];
    intros H; try discriminate. eauto.
Qed.

Lemma map_err_Ok_inv {A} f (m : M A) w a w' :
  map_err f m w = (Ok a, w') -> m w = (Ok a, w').
Proof.
  unfold map_err. destruct (m w) as [[a0|e|p] w1]; intros H;
    try discriminate; assumption.
Qed.

Lemma sqlx_Exec_Ok_inv f w u w' :
  sqlx_Exec f w = (Ok u, w') ->
  fst (next_fault w) = false
  /\ w' = set_store (f (store w)) (snd (next_fault w)).
Proof.
  destruct (fst (next_fault w)) eqn:E.
  - rewrite sqlx_Exec_bad by assumption. discriminate.
  - rewrite sqlx_Exec_ok by assumption. intros [= <-]. auto.
Qed.

Lemma scan_columns r : scan columns r = User.set_ns None r.
Proof. destruct r. reflexivity. Qed.

Lemma first_or_nil_In {A} (l : list A) x : first_or_nil l = Some x -> In x l.
Proof. destruct l; simpl; [discriminate|]. intros [= ->]. now left. Qed.

Lemma first_or_nil_nonempty {A} (l : list A) x :
  In x l -> exists y, first_or_nil l = Some y.
Proof. destruct l; simpl; [contradiction|]. eauto. Qed.

Lemma first_or_nil_None {A} (l : list A) : first_or_nil l = None <-> l = [].
Proof. destruct l; simpl; split; congruence. Qed.

(** *** The token lookup *)

Lemma GetUserByUserToken_ok tok w :
  fst (next_fault w) = false ->
  fst (GetUserByUserToken tok w)
  = Ok (first_or_nil
          (select_users_join_session columns tok (clock w (ticks w))
             (store w))).
Proof.
  intros H. unfold GetUserByUserToken.
  erewrite bind_Ok by reflexivity.
  erewrite bind_Ok.
  2:{ apply map_err_Ok. apply sqlx_Select_ok. now rewrite nf_set_ticks. }
  reflexivity.
Qed.

Lemma In_join cols tok now s u :
  In u (select_users_join_session cols tok now s) <->
  exists r, In r (users s) /\ u = scan cols r /\ owns_live_session s tok now r.
Proof.
  unfold select_users_join_session, owns_live_session.
  rewrite in_flat_map. split.
  - intros (r & Hr & Hu). apply in_map_iff in Hu as (se & <- & Hse).
    apply filter_In in Hse as (Hse & Hc).
    apply andb_true_iff in Hc as (Hc & Hid).
    apply andb_true_iff in Hc as (Htok & Hexp).
    apply String.eqb_eq in Htok. apply Z.leb_le in Hexp.
    apply Z.eqb_eq in Hid.
    exists r. repeat split; try assumption. exists se. auto.
  - intros (r & Hr & -> & se & Hse & Htok & Hexp & Hid).
    exists r. split; [assumption|]. apply in_map_iff. exists se.
    split; [reflexivity|]. apply filter_In. split; [assumption|].
    rewrite !andb_true_iff. repeat split.
    + now apply String.eqb_eq.
    + now apply Z.leb_le.
    + apply Z.eqb_eq. congruence.
Qed.

Lemma NoDup_map_eq {A B} (f : A -> B) (l : list A) x y :
  List.NoDup (map f l) -> In x l -> In y l -> f x = f y -> x = y.
Proof.
  induction l as [|a l IH]; simpl; [contradiction|].
  intros Hnd Hx Hy Hf. inversion Hnd as [|? ? Hna Hnd']; subst.
  destruct Hx as [->|Hx], Hy as [->|Hy]; auto.
  - exfalso. apply Hna. rewrite Hf. now apply in_map.
  - exfalso. apply Hna. rewrite <- Hf. now apply in_map.
Qed.

(** C1, as the code has it: with the database up, [GetUserByUserToken]
    returns a user exactly when some user row owns a session that carries
    the token and whose expired timestamp is at or after the current time
    (the comparison is [expired_at >= now], so the token still counts at
    the very second of expiry); the user returned is such an owner's row,
    and it is the owner's row when ids and tokens are unique. *)
Theorem GetUserByUserToken_live_session (tok : string) (w : World) :
  db_up w ->
  let s := store w in
  let now := clock w (ticks w) in
  (forall u, fst (GetUserByUserToken tok w) = Ok (Some u) ->
     exists r, In r (users s) /\ u = scan columns r
               /\ owns_live_session s tok now r)
  /\ ((exists r, In r (users s) /\ owns_live_session s tok now r) ->
      exists u, fst (GetUserByUserToken tok w) = Ok (Some u))
  /\ ((forall r, In r (users s) -> ~ owns_live_session s tok now r) ->
      fst (GetUserByUserToken tok w) = Ok None)
  /\ (List.NoDup (map User.ID (users s)) ->
      List.NoDup (map Session.Token (sessions s)) ->
      forall r, In r (users s) -> owns_live_session s tok now r ->
      fst (GetUserByUserToken tok w) = Ok (Some (scan columns r))).
Proof.
  intros Hup s now. rewrite (GetUserByUserToken_ok tok w (db_up_next w Hup)).
  fold s now. repeat split.
  - intros u [= Hu]. apply first_or_nil_In in Hu. now apply In_join in Hu.
  - intros (r & Hr & Ho).
    destruct (first_or_nil_nonempty
                (select_users_join_session columns tok now s)
                (scan columns r)) as [y Hy].
    + apply In_join. eauto.
    + exists y. now rewrite Hy.
  - intros Hnone. f_equal. apply first_or_nil_None.
    destruct (select_users_join_session columns tok now s) as [|u l] eqn:E;
      [reflexivity|].
    exfalso. assert (Hin : In u (u :: l)) by now left.
    rewrite <- E in Hin. apply In_join in Hin as (r & Hr & _ & Ho).
    exact (Hnone r Hr Ho).
  - intros Hid Htok r Hr Ho.
    destruct (first_or_nil_nonempty
                (select_users_join_session columns tok now s)
                (scan columns r)) as [y Hy].
    { apply In_join. eauto. }
    rewrite Hy. do 2 f_equal.
    apply first_or_nil_In, In_join in Hy as (r' & Hr' & -> & Ho').
    destruct Ho as (se & Hse & Ht & _ & Hown).
    destruct Ho' as (se' & Hse' & Ht' & _ & Hown').
    assert (se' = se).
    { apply (NoDup_map_eq Session.Token (sessions s)); congruence. }
    subst se'. f_equal.
    apply (NoDup_map_eq User.ID (users s)); congruence.
Qed.

Lemma GetUserByUserToken_live_session_witness :
  db_up sample_world
  /\ exists u, fst (GetUserByUserToken "token-a" sample_world) = Ok (Some u).
Proof.
  split; [constructor|].
  apply (proj1 (proj2 (GetUserByUserToken_live_session "token-a" sample_world
                         (List.Forall_nil _)))).
  exists alice. split; [now left|].
  exists (Session.mk 1 "token-a" "10.0.0.1" 0 100).
  repeat split; simpl; auto; lia.
Defined.

(** C1 with a strict comparison fails at the second of expiry: the clock
    reads 100, the only session carrying "token-a" expires at 100, so the
    current time is not strictly less than the expired timestamp, and the
    lookup still returns alice. *)
Lemma GetUserByUserToken_at_expiry :
  clock sample_world (ticks sample_world) = 100
  /\ In (Session.mk 1 "token-a" "10.0.0.1" 0 100)
        (sessions (store sample_world))
  /\ (forall se, In se (sessions (store sample_world)) ->
        Session.Token se = "token-a" ->
        ~ clock sample_world (ticks sample_world) < Session.ExpiredAt se)
  /\ fst (GetUserByUserToken "token-a" sample_world) = Ok (Some alice).
Proof.
  split; [reflexivity|]. split; [now left|]. split; [|reflexivity].
  intros se [<-|[<-|[]]]; simpl; [lia|discriminate].
Qed.

(** *** Lookups of one user *)

Lemma holds_NormalUser r : sq.holds NormalUser r = is_normal r.
Proof. unfold is_normal. simpl. now destruct (User.DeletedAt r). Qed.

Lemma is_normal_true r : is_normal r = true <-> User.DeletedAt r = None.
Proof. unfold is_normal. destruct (User.DeletedAt r); split; congruence. Qed.

Lemma first_or_nil_map_filter {A B} (f : A -> B) (p : A -> bool) l :
  first_or_nil (map f (List.filter p l)) = option_map f (find p l).
Proof.
  induction l as [|a l IH]; simpl; [reflexivity|].
  destruct (p a); simpl; auto.
Qed.

Lemma find_ext_bool {A} (p q : A -> bool) l :
  (forall x, p x = q x) -> find p l = find q l.
Proof.
  intros E. induction l as [|a l IH]; simpl; [reflexivity|].
  rewrite E, IH. reflexivity.
Qed.

Lemma listUsersByCond_ok cols cond w :
  fst (next_fault w) = false ->
  listUsersByCond cols cond w
  = (Ok (select_users cols (sq.And [cond; NormalUser]) (store w)),
     snd (next_fault w)).
Proof.
  intros H. unfold listUsersByCond. apply map_err_Ok.
  now apply sqlx_Select_ok.
Qed.

Lemma getUser_ok cond w :
  fst (next_fault w) = false ->
  getUser cond w
  = (Ok (option_map (scan columns)
           (find (fun r => sq.holds cond r && is_normal r)
              (users (store w)))),
     snd (next_fault w)).
Proof.
  intros H. unfold getUser.
  erewrite bind_Ok by (apply listUsersByCond_ok; exact H).
  unfold mret, M_ret, ret, select_users.
  rewrite first_or_nil_map_filter. do 3 f_equal.
  apply find_ext_bool. intros r. simpl.
  now rewrite andb_true_r, <- holds_NormalUser.
Qed.

Lemma getUser_absent cond w :
  db_up w ->
  (forall r, In r (users (store w)) -> User.DeletedAt r = None ->
             sq.holds cond r = false) ->
  fst (getUser cond w) = Ok None.
Proof.
  intros H Habs. rewrite getUser_ok by now apply db_up_next. simpl.
  destruct (find _ _) as [r|] eqn:E; [|reflexivity].
  apply find_some in E as (Hr & Hc). apply andb_true_iff in Hc as (Hc & Hn).
  apply is_normal_true in Hn. rewrite (Habs r Hr Hn) in Hc. discriminate.
Qed.

(** The three lookups built on [getUser] signal absence by a nil user and
    a nil error. *)
Lemma lookups_absent_nil w :
  db_up w ->
  (forall id,
      (forall r, In r (users (store w)) -> User.DeletedAt r = None ->
                 User.ID r <> id) ->
      fst (GetUser id w) = Ok None)
  /\ (forall email,
      (forall r, In r (users (store w)) -> User.DeletedAt r = None ->
                 User.Email r <> email) ->
      fst (GetUserByEmail email w) = Ok None)
  /\ (forall username,
      (forall r, In r (users (store w)) -> User.DeletedAt r = None ->
                 User.Username r <> username) ->
      fst (GetUserByUsername username w) = Ok None).
Proof.
  intros H. repeat split; intros x Habs;
    apply getUser_absent; try assumption; intros r Hr Hn; simpl.
  - apply Z.eqb_neq. now apply Habs.
  - apply String.eqb_neq. now apply Habs.
  - apply String.eqb_neq. now apply Habs.
Qed.

Lemma length_pos_nonempty (s : string) :
  (0 <? String.length s)%nat = true <-> s <> "".
Proof.
  destruct s; simpl.
  - split; [discriminate|]. intros H. now contradiction H.
  - split; [discriminate|reflexivity].
Qed.

Lemma find_existsb {A} (p : A -> bool) l :
  match find p l with Some _ => true | None => false end = existsb p l.
Proof.
  induction l as [|a l IH]; simpl; [reflexivity|]. now destruct (p a).
Qed.

Lemma ExistsEmailOrUsername_up username email w :
  db_up w ->
  fst (ExistsEmailOrUsername username email w)
  = Ok (((0 <? String.length username)%nat
         && existsb (fun r => sq.holds (sq.Eq sq.username (sq.VStr username)) r
                              && is_normal r) (users (store w)))
        || ((0 <? String.length email)%nat
            && existsb (fun r => sq.holds (sq.Eq sq.email (sq.VStr email)) r
                                 && is_normal r) (users (store w)))).
Proof.
  intros Hup. unfold ExistsEmailOrUsername.
  pose proof (next_fault_up w Hup) as (_ & Hup').
  pose proof (next_fault_frame w) as (Hs & _). simpl in Hs.
  set (pn := fun r => sq.holds (sq.Eq sq.username (sq.VStr username)) r
                      && is_normal r).
  set (pm := fun r => sq.holds (sq.Eq sq.email (sq.VStr email)) r
                      && is_normal r).
  rewrite <- (find_existsb pn), <- (find_existsb pm).
  destruct (0 <? String.length username)%nat.
  - erewrite bind_Ok by (apply getUser_ok, db_up_next, Hup). fold pn.
    destruct (find pn (users (store w))); simpl; [reflexivity|].
    destruct (0 <? String.length email)%nat.
    + erewrite bind_Ok by (apply getUser_ok, db_up_next, Hup').
      rewrite Hs. fold pm.
      destruct (find pm (users (store w))); reflexivity.
    + erewrite bind_Ok by reflexivity. reflexivity.
  - erewrite bind_Ok by reflexivity. simpl.
    destruct (0 <? String.length email)%nat.
    + erewrite bind_Ok by (apply getUser_ok, db_up_next, Hup). fold pm.
      destruct (find pm (users (store w))); reflexivity.
    + erewrite bind_Ok by reflexivity. reflexivity.
Qed.

(** C5: with the database up, [ExistsEmailOrUsername] returns true exactly
    when some row that is not soft-deleted carries the given non-empty
    username or the given non-empty email; in particular it returns false
    when every row that matches is soft-deleted. *)
Theorem ExistsEmailOrUsername_iff (username email : string) (w : World) :
  db_up w ->
  let hit := fun r =>
    (username <> "" /\ User.Username r = username)
    \/ (email <> "" /\ User.Email r = email) in
  (fst (ExistsEmailOrUsername username email w) = Ok true <->
   exists r, In r (users (store w)) /\ User.DeletedAt r = None /\ hit r)
  /\ ((forall r, In r (users (store w)) -> hit r ->
                 User.DeletedAt r <> None) ->
      fst (ExistsEmailOrUsername username email w) = Ok false).
Proof.
  intros Hup hit. rewrite ExistsEmailOrUsername_up by assumption.
  assert (Hiff :
    forall b, b = (((0 <? String.length username)%nat
         && existsb (fun r => sq.holds (sq.Eq sq.username (sq.VStr username)) r
                              && is_normal r) (users (store w)))
        || ((0 <? String.length email)%nat
            && existsb (fun r => sq.holds (sq.Eq sq.email (sq.VStr email)) r
                                 && is_normal r) (users (store w)))) ->
      b = true <->
      exists r, In r (users (store w)) /\ User.DeletedAt r = None /\ hit r).
  { intros b ->. rewrite orb_true_iff, !andb_true_iff, !existsb_exists.
    rewrite !length_pos_nonempty. split.
    - intros [(Hne & r & Hr & Hc)|(Hne & r & Hr & Hc)];
        apply andb_true_iff in Hc as (Hc & Hn); simpl in Hc;
        apply String.eqb_eq in Hc; apply is_normal_true in Hn;
        exists r; unfold hit; auto.
    - intros (r & Hr & Hn & [(Hne & Hm)|(Hne & Hm)]);
        apply is_normal_true in Hn; [left|right];
        (split; [assumption|]); exists r; (split; [assumption|]);
        simpl; rewrite Hn, andb_true_r; now apply String.eqb_eq. }
  split.
  - rewrite <- (Hiff _ eq_refl). split; congruence.
  - intros Hdel. f_equal. apply not_true_is_false. intros Hb.
    apply (Hiff _ eq_refl) in Hb as (r & Hr & Hn & Hh).
    exact (Hdel r Hr Hh Hn).
Qed.

Lemma ExistsEmailOrUsername_iff_witness :
  db_up sample_world
  /\ fst (ExistsEmailOrUsername "bob" "bob@example.org" sample_world)
     = Ok false.
Proof.
  split; [constructor|].
  apply (proj2 (ExistsEmailOrUsername_iff "bob" "bob@example.org"
                  sample_world (List.Forall_nil _))).
  intros r [<-|[<-|[<-|[]]]]; simpl;
    intros [(_ & H)|(_ & H)]; discriminate.
Defined.

(** C9 at the failing input: bob is soft-deleted, so no normal user owns
    "token-b", and the token lookup hands bob back all the same. *)
Theorem GetUserByUserToken_returns_soft_deleted :
  (forall r, In r (users (store sample_world)) ->
     User.DeletedAt r = None ->
     ~ owns_live_session (store sample_world) "token-b"
         (clock sample_world (ticks sample_world)) r)
  /\ User.DeletedAt bob = Some 50
  /\ fst (GetUserByUserToken "token-b" sample_world) = Ok (Some bob)
  /\ fst (GetUser 2 sample_world) = Ok None.
Proof.
  split; [|repeat split].
  intros r [<-|[<-|[<-|[]]]] Hn (se & [<-|[<-|[]]] & Ht & _ & Ho);
    simpl in *; discriminate.
Qed.

(** *** The login flow *)

Section LoginProps.

Variable ComparePassword : string -> string -> bool.
Variable Namespace_of : Store -> User.t -> option Namespace.t.

Lemma validate_ok x pw w :
  fst (next_fault w) = false ->
  validate ComparePassword x pw w
  = (match matching_user (store w) x with
     | None => Err (errors.NotFoundError errors.User)
     | Some r =>
         if negb (User.Verified r)
         then Err (errors.AccessDenied errors.User errors.NotActivated)
         else if negb (ComparePassword (User.EncryptedPassword r) pw)
         then Err (errors.InvalidParameterError errors.User errors.Password
                     errors.NotEqual)
         else Ok (scan columns r)
     end,
     snd (next_fault w)).
Proof.
  intros Hup. unfold validate, matching_user, identifies,
    GetUserByEmail, GetUserByUsername.
  destruct (Contains x "@");
    (erewrite bind_Ok by (apply getUser_ok; exact Hup));
    simpl sq.holds;
    (destruct (find _ _) as [r|]; simpl; [|reflexivity]);
    unfold User.Verified; destruct r as [? ? ? ? ? ? ? ? [v|] ? ? ? ? ? ?];
    simpl; try reflexivity;
    destruct (ComparePassword _ pw); reflexivity.
Qed.

Lemma validate_bad x pw w :
  fst (next_fault w) = true ->
  validate ComparePassword x pw w
  = (Err (errors.Wrap errors.DriverErr), snd (next_fault w)).
Proof.
  intros Hf. unfold validate, GetUserByEmail, GetUserByUsername, getUser,
    listUsersByCond.
  destruct (Contains x "@");
    (erewrite bind_Err; [reflexivity|]);
    (erewrite bind_Err; [reflexivity|]);
    unfold map_err; now rewrite sqlx_Select_bad.
Qed.

Lemma validate_store x pw w :
  store (snd (validate ComparePassword x pw w)) = store w.
Proof.
  destruct (fst (next_fault w)) eqn:E.
  - rewrite validate_bad by assumption. apply nf_store.
  - rewrite validate_ok by assumption. apply nf_store.
Qed.

Lemma validate_Ok_inv x pw w u w1 :
  validate ComparePassword x pw w = (Ok u, w1) ->
  exists r, matching_user (store w) x = Some r
            /\ User.Verified r = true
            /\ ComparePassword (User.EncryptedPassword r) pw = true
            /\ u = scan columns r
            /\ fst (next_fault w) = false
            /\ w1 = snd (next_fault w).
Proof.
  destruct (fst (next_fault w)) eqn:E.
  - rewrite validate_bad by assumption. discriminate.
  - rewrite validate_ok by assumption.
    destruct (matching_user (store w) x) as [r|]; [|discriminate].
    destruct (User.Verified r) eqn:Ev; [|discriminate].
    destruct (ComparePassword (User.EncryptedPassword r) pw) eqn:Ec;
      [|discriminate].
    simpl. intros [= <- <-]. exists r. repeat split; assumption.
Qed.

Lemma Login_validate_Err ctx req w e w' :
  validate ComparePassword (req_Email req) (req_Password req) w = (Err e, w') ->
  Login ComparePassword Namespace_of ctx req w = (Err e, w').
Proof. intros H. unfold Login. now apply bind_Err. Qed.

(** C3: with the database up, [Login] decides its failures in this order:
    NotFound when no normal row matches the identifier; else AccessDenied
    when the matching row has a null verified timestamp, whatever the
    password; else InvalidParameter when the password comparison fails. *)
Theorem Login_failure_precedence (ctx : Context) (req : LoginUserPayload)
    (w : World) :
  db_up w ->
  let login := fst (Login ComparePassword Namespace_of ctx req w) in
  ((forall r, In r (users (store w)) -> User.DeletedAt r = None ->
              identifies (req_Email req) r = false) ->
   login = Err (errors.NotFoundError errors.User))
  /\ (forall r, matching_user (store w) (req_Email req) = Some r ->
      User.VerifiedAt r = None ->
      login = Err (errors.AccessDenied errors.User errors.NotActivated))
  /\ (forall r t, matching_user (store w) (req_Email req) = Some r ->
      User.VerifiedAt r = Some t ->
      ComparePassword (User.EncryptedPassword r) (req_Password req) = false ->
      login = Err (errors.InvalidParameterError errors.User errors.Password
                     errors.NotEqual)).
Proof.
  intros Hup login. subst login.
  pose proof (validate_ok (req_Email req) (req_Password req) w
                (db_up_next w Hup)) as Hv.
  repeat split.
  - intros Habs.
    assert (Hm : matching_user (store w) (req_Email req) = None).
    { unfold matching_user. destruct (find _ _) as [r|] eqn:E; [|reflexivity].
      apply find_some in E as (Hr & Hc).
      apply andb_true_iff in Hc as (Hc & Hn). apply is_normal_true in Hn.
      rewrite (Habs r Hr Hn) in Hc. discriminate. }
    rewrite Hm in Hv. now rewrite (Login_validate_Err _ _ _ _ _ Hv).
  - intros r Hm Hnv. rewrite Hm in Hv. unfold User.Verified in Hv.
    rewrite Hnv in Hv. simpl in Hv.
    now rewrite (Login_validate_Err _ _ _ _ _ Hv).
  - intros r t Hm Hv' Hc. rewrite Hm in Hv. unfold User.Verified in Hv.
    rewrite Hv', Hc in Hv. simpl in Hv.
    now rewrite (Login_validate_Err _ _ _ _ _ Hv).
Qed.

Lemma update_users_login s userID clientIP loginAt :
  update_users
    [(sq.last_login_at, sq.VInt loginAt); (sq.last_login_ip, sq.VStr clientIP)]
    (sq.Eq sq.id (sq.VInt userID)) s
  = mkStore
      (map (fun r =>
              if (User.ID r =? userID)%Z
              then User.set_LastLoginIP (Some clientIP)
                     (User.set_LastLoginAt (Some loginAt) r)
              else r)
           (users s))
      (sessions s) (namespaces s).
Proof. reflexivity. Qed.

Lemma UpdateLogin_Ok_inv userID clientIP w u w' :
  UpdateLogin userID clientIP w = (Ok u, w') ->
  fst (next_fault w) = false
  /\ w' = set_store
            (update_users
               [(sq.last_login_at, sq.VInt (clock w (ticks w)));
                (sq.last_login_ip, sq.VStr clientIP)]
               (sq.Eq sq.id (sq.VInt userID)) (store w))
            (snd (next_fault (set_ticks (S (ticks w)) w))).
Proof.
  unfold UpdateLogin, update. intros H.
  apply bind_Ok_inv in H as (now & w1 & [= <- <-] & H).
  apply map_err_Ok_inv, sqlx_Exec_Ok_inv in H as (Hf & ->).
  now rewrite nf_set_ticks in Hf.
Qed.

Lemma buildSession_eq userID clientIP w :
  buildSession userID clientIP w
  = (Ok (Session.mk userID (uuids w (drawn w)) clientIP (clock w (ticks w))
           (clock w (S (ticks w)) + 30 * 24 * 3600)),
     set_ticks (S (S (ticks w))) (set_drawn (S (drawn w)) w)).
Proof. reflexivity. Qed.

Lemma AddSession_Ok_inv sess w u w' :
  AddSession sess w = (Ok u, w') ->
  fst (next_fault w) = false
  /\ w' = set_store
            (mkStore (users (store w)) (sessions (store w) ++ [sess])
               (namespaces (store w)))
            (snd (next_fault w)).
Proof.
  unfold AddSession. intros H.
  now apply map_err_Ok_inv, sqlx_Exec_Ok_inv in H.
Qed.

(** What a login that returns has done. *)
Lemma Login_Ok_inv ctx req w res w' :
  Login ComparePassword Namespace_of ctx req w = (Ok res, w') ->
  exists r n,
    matching_user (store w) (req_Email req) = Some r
    /\ User.Verified r = true
    /\ ComparePassword (User.EncryptedPassword r) (req_Password req) = true
    /\ Namespace_of (store w') (scan columns r) = Some n
    /\ res = mkUserLoginResult (uuids w (drawn w)) (Namespace.Path n)
               (User.Name r) (User.Email r) (User.PublicEmail r)
    /\ store w' = login_writes (store w) (User.ID r) (ctx_ClientIP ctx)
                    (clock w (ticks w))
                    (issued_session w (User.ID r) (ctx_ClientIP ctx))
    /\ cookies w' = (cookies w
                     ++ [mkCookie tokenField (uuids w (drawn w)) 0 "/"
                           (ctx_Request_Host ctx) false false])%list.
Proof.
  unfold Login. intros H.
  apply bind_Ok_inv in H as (u & w1 & Hv & H).
  apply validate_Ok_inv in Hv as (r & Hm & Hver & Hc & -> & Hf1 & ->).
  unfold Transact in H.
  destruct (login_tx Namespace_of ctx (scan columns r) (ctx_ClientIP ctx)
              (snd (next_fault w))) as [[a|e|p] w2] eqn:Htx;
    try discriminate.
  injection H as -> ->. unfold login_tx in Htx.
  apply bind_Ok_inv in Htx as (u1 & w3 & Hu & Htx).
  apply UpdateLogin_Ok_inv in Hu as (Hf2 & ->).
  apply bind_Ok_inv in Htx as (sess & w4 & Hb & Htx).
  rewrite buildSession_eq in Hb. injection Hb as <- <-.
  apply bind_Ok_inv in Htx as (u2 & w5 & Ha & Htx).
  apply AddSession_Ok_inv in Ha as (Hf3 & ->).
  apply bind_Ok_inv in Htx as (n & w6 & Hn & Htx).
  unfold user_Namespace in Hn.
  destruct (Namespace_of _ _) as [n'|] eqn:En in Hn; [|discriminate].
  injection Hn as -> <-.
  apply bind_Ok_inv in Htx as (u3 & w7 & Hck & Htx).
  injection Hck as _ <-. injection Htx as <- <-.
  exists r, n. repeat split; try assumption.
  - world_simpl. reflexivity.
  - world_simpl. reflexivity.
  - world_simpl. reflexivity.
Qed.

Lemma UpdateLogin_ok userID clientIP w :
  fst (next_fault w) = false ->
  UpdateLogin userID clientIP w
  = (Ok tt,
     set_store
       (update_users
          [(sq.last_login_at, sq.VInt (clock w (ticks w)));
           (sq.last_login_ip, sq.VStr clientIP)]
          (sq.Eq sq.id (sq.VInt userID)) (store w))
       (snd (next_fault (set_ticks (S (ticks w)) w)))).
Proof.
  intros Hf. unfold UpdateLogin, update.
  erewrite bind_Ok by reflexivity.
  erewrite map_err_Ok; [reflexivity|].
  rewrite sqlx_Exec_ok by now rewrite nf_set_ticks. reflexivity.
Qed.

Lemma AddSession_ok sess w :
  fst (next_fault w) = false ->
  AddSession sess w
  = (Ok tt,
     set_store
       (mkStore (users (store w)) (sessions (store w) ++ [sess])
          (namespaces (store w)))
       (snd (next_fault w))).
Proof.
  intros Hf. unfold AddSession.
  erewrite map_err_Ok; [reflexivity|]. now rewrite sqlx_Exec_ok.
Qed.

(** A login with good credentials returns when the database is up and the
    user has a namespace. *)
Lemma Login_Ok_intro ctx req w r n :
  db_up w ->
  matching_user (store w) (req_Email req) = Some r ->
  User.Verified r = true ->
  ComparePassword (User.EncryptedPassword r) (req_Password req) = true ->
  (forall s', namespaces s' = namespaces (store w) ->
              Namespace_of s' (scan columns r) = Some n) ->
  exists res w', Login ComparePassword Namespace_of ctx req w = (Ok res, w').
Proof.
  intros Hup Hm Hv Hc Hns. unfold Login.
  erewrite bind_Ok.
  2:{ rewrite validate_ok by calls_ok. rewrite Hm, Hv, Hc. reflexivity. }
  unfold Transact, login_tx.
  erewrite bind_Ok by (apply UpdateLogin_ok; calls_ok).
  erewrite bind_Ok by apply buildSession_eq.
  erewrite bind_Ok by (apply AddSession_ok; calls_ok).
  erewrite bind_Ok.
  2:{ unfold user_Namespace. rewrite Hns by (world_simpl; reflexivity).
      reflexivity. }
  erewrite bind_Ok by reflexivity.
  simpl. eauto.
Qed.

(** C2: whenever [Login] does not return a result (validation failed, or
    the last-login update, the session insert or the construction of the
    response failed inside the transaction) the store is as it was before
    the call; when it returns one, the last-login update and the session
    insert have both been applied. *)
Theorem Login_all_or_nothing (ctx : Context) (req : LoginUserPayload)
    (w : World) :
  let out := Login ComparePassword Namespace_of ctx req w in
  ((forall res, fst out <> Ok res) -> store (snd out) = store w)
  /\ (forall res, fst out = Ok res ->
      exists r, In r (users (store w))
        /\ store (snd out)
           = login_writes (store w) (User.ID r) (ctx_ClientIP ctx)
               (clock w (ticks w))
               (issued_session w (User.ID r) (ctx_ClientIP ctx))).
Proof.
  intros out. split.
  - subst out. unfold Login.
    pose proof (validate_store (req_Email req) (req_Password req) w) as Hs.
    destruct (validate ComparePassword (req_Email req) (req_Password req) w)
      as [[u|e|p] w1] eqn:Hv; simpl in Hs.
    + erewrite bind_Ok by exact Hv. unfold Transact.
      destruct (login_tx Namespace_of ctx u (ctx_ClientIP ctx) w1)
        as [[a|e|p] w2]; simpl; intros Hno; try assumption.
      now contradiction (Hno a).
    + erewrite bind_Err by exact Hv. intros _. exact Hs.
    + erewrite bind_Panic by exact Hv. intros _. exact Hs.
  - intros res Hres. destruct out as [o w'] eqn:Hout. simpl in Hres.
    subst o. subst out.
    apply Login_Ok_inv in Hout as (r & n & Hm & _ & _ & _ & _ & Hst & _).
    exists r. split; [|exact Hst].
    unfold matching_user in Hm. now apply find_some in Hm.
Qed.


(** C6: a login that returns has added exactly one cookie to the
    response, named "auth-user-token", carrying the token of the result,
    with max-age 0, path "/", and the secure and http-only flags off; the
    one session row added to the store carries that token and expires
    [TokenExpiredTime], 30 days, after the clock reading taken for it,
    which is 30 days after [CreatedAt] when the two readings fall in the
    same second. *)
Theorem Login_cookie_and_expiry (ctx : Context) (req : LoginUserPayload)
    (w : World) (res : UserLoginResult) (w' : World) :
  Login ComparePassword Namespace_of ctx req w = (Ok res, w') ->
  cookies w'
  = (cookies w
     ++ [mkCookie "auth-user-token" (res_Token res) 0 "/"
           (ctx_Request_Host ctx) false false])%list
  /\ TokenExpiredTime = 30 * 24 * 3600 * Second
  /\ exists sess,
       sessions (store w') = (sessions (store w) ++ [sess])%list
       /\ Session.Token sess = res_Token res
       /\ Session.CreatedAt sess = clock w (S (ticks w))
       /\ Session.ExpiredAt sess
          = clock w (S (S (ticks w))) + 30 * 24 * 3600
       /\ (clock w (S (S (ticks w))) = clock w (S (ticks w)) ->
           Session.ExpiredAt sess
           = Session.CreatedAt sess + 30 * 24 * 3600).
Proof.
  intros HL.
  apply Login_Ok_inv in HL as (r & n & _ & _ & _ & _ & -> & Hst & Hck).
  split; [exact Hck|]. split; [reflexivity|].
  exists (issued_session w (User.ID r) (ctx_ClientIP ctx)).
  rewrite Hst. repeat split. simpl. intros ->. reflexivity.
Qed.

End LoginProps.

Lemma Login_failure_precedence_witness :
  db_up sample_world
  /\ fst (Login sample_ComparePassword sample_Namespace_of sample_ctx
            (mkLoginUserPayload "carol" "singer") sample_world)
     = Err (errors.AccessDenied errors.User errors.NotActivated).
Proof.
  split; [constructor|].
  apply (proj1 (proj2 (Login_failure_precedence sample_ComparePassword
                         sample_Namespace_of sample_ctx
                         (mkLoginUserPayload "carol" "singer") sample_world
                         (List.Forall_nil _))) carol);
    reflexivity.
Defined.

Lemma Login_all_or_nothing_witness :
  fst (Login sample_ComparePassword sample_Namespace_of sample_ctx
         (mkLoginUserPayload "alice" "wonderland") insert_fails_world)
  = Err (errors.Wrap errors.DriverErr)
  /\ store (snd (Login sample_ComparePassword sample_Namespace_of sample_ctx
                   (mkLoginUserPayload "alice" "wonderland")
                   insert_fails_world))
     = store insert_fails_world.
Proof.
  split; [reflexivity|].
  apply (proj1 (Login_all_or_nothing sample_ComparePassword
                  sample_Namespace_of sample_ctx
                  (mkLoginUserPayload "alice" "wonderland")
                  insert_fails_world)).
  intros res. vm_compute. discriminate.
Defined.

(** Without the transaction the same failure leaves the last-login update
    behind: the rollback is what makes the two writes atomic. *)
Example login_tx_alone_is_partial :
  let w1 := snd (validate sample_ComparePassword "alice" "wonderland"
                   insert_fails_world) in
  fst (login_tx sample_Namespace_of sample_ctx alice "192.0.2.7" w1)
  = Err (errors.Wrap errors.DriverErr)
  /\ User.LastLoginAt
       <$> users (store (snd (login_tx sample_Namespace_of sample_ctx alice
                               "192.0.2.7" w1)))
     = [Some 100; None; None]
  /\ User.LastLoginAt <$> users (store w1) = [None; None; None].
Proof. repeat split. Qed.


Lemma Login_cookie_and_expiry_witness :
  let out := Login sample_ComparePassword sample_Namespace_of sample_ctx
               (mkLoginUserPayload "alice" "wonderland") sample_world in
  cookies (snd out)
  = [mkCookie "auth-user-token" "uuid-0" 0 "/" "git.example.org" false false]
  /\ exists sess,
       sessions (store (snd out))
       = (sessions (store sample_world) ++ [sess])%list
       /\ Session.Token sess = "uuid-0"
       /\ Session.CreatedAt sess = 101
       /\ Session.ExpiredAt sess = 102 + 30 * 24 * 3600.
Proof.
  intros out.
  destruct (Login_cookie_and_expiry sample_ComparePassword
              sample_Namespace_of sample_ctx
              (mkLoginUserPayload "alice" "wonderland") sample_world
              (mkUserLoginResult "uuid-0" "alice" "Alice"
                 "alice@example.org" true)
              (snd out) eq_refl)
    as (Hc & _ & sess & Hs & Ht & Hcr & Hex & _).
  split; [exact Hc|]. exists sess. repeat split; assumption.
Defined.

(** *** Activation *)

Lemma ActivateUser_ok userID w :
  fst (next_fault w) = false ->
  ActivateUser userID w
  = (Ok tt,
     set_store
       (update_users [(sq.verified_at, sq.VInt (clock w (ticks w)))]
          (sq.And [sq.Eq sq.id (sq.VInt userID); InactivateUser]) (store w))
       (snd (next_fault (set_ticks (S (ticks w)) w)))).
Proof.
  intros Hf. unfold ActivateUser.
  erewrite bind_Ok by reflexivity.
  erewrite map_err_Ok; [reflexivity|].
  rewrite sqlx_Exec_ok by now rewrite nf_set_ticks. reflexivity.
Qed.

Lemma activate_row_cases userID now r :
  (User.ID r = userID -> User.VerifiedAt r = None ->
   activate_row userID now r = User.set_VerifiedAt (Some now) r)
  /\ (User.VerifiedAt r <> None -> activate_row userID now r = r)
  /\ (User.ID r <> userID -> activate_row userID now r = r).
Proof.
  unfold activate_row. simpl. repeat split.
  - intros -> ->. now rewrite Z.eqb_refl.
  - intros Hv. destruct (User.VerifiedAt r); [|contradiction].
    simpl. now rewrite andb_false_r.
  - intros Hid. apply Z.eqb_neq in Hid. now rewrite Hid.
Qed.

Lemma activate_row_twice userID now now' r :
  activate_row userID now' (activate_row userID now r)
  = activate_row userID now r.
Proof.
  destruct (activate_row_cases userID now r) as (H1 & H2 & H3).
  destruct (Z.eq_dec (User.ID r) userID) as [Hid|Hid].
  - destruct (User.VerifiedAt r) eqn:Ev.
    + rewrite H2 by congruence.
      apply (proj1 (proj2 (activate_row_cases userID now' r))). congruence.
    + rewrite H1 by auto.
      apply (proj1 (proj2 (activate_row_cases userID now' _))).
      simpl. discriminate.
  - rewrite H3 by assumption.
    now apply (proj2 (proj2 (activate_row_cases userID now' r))).
Qed.

(** C8: with the database up, [ActivateUser] sets the verified timestamp
    of the rows with that id whose verified timestamp is null and leaves
    every other row, an already verified one in particular, as it is; a
    second call changes nothing in the store. *)
Theorem ActivateUser_idempotent (userID : Z) (w : World) :
  db_up w ->
  let w1 := snd (ActivateUser userID w) in
  let w2 := snd (ActivateUser userID w1) in
  fst (ActivateUser userID w) = Ok tt
  /\ fst (ActivateUser userID w1) = Ok tt
  /\ Forall2
       (fun r r' =>
          (User.ID r = userID -> User.VerifiedAt r = None ->
           r' = User.set_VerifiedAt (Some (clock w (ticks w))) r)
          /\ (User.VerifiedAt r <> None -> r' = r)
          /\ (User.ID r <> userID -> r' = r))
       (users (store w)) (users (store w1))
  /\ sessions (store w1) = sessions (store w)
  /\ namespaces (store w1) = namespaces (store w)
  /\ store w2 = store w1.
Proof.
  intros Hup w1 w2.
  assert (Hup1 : db_up w1).
  { subst w1. rewrite ActivateUser_ok by calls_ok. simpl.
    unfold db_up in *. simpl. autorewrite with world. simpl.
    apply (db_up_after w Hup). }
  subst w2. rewrite (ActivateUser_ok userID w1) by calls_ok.
  subst w1. rewrite (ActivateUser_ok userID w) by calls_ok.
  repeat split.
  - world_simpl.
    induction (users (store w)) as [|r l IH]; simpl; constructor; auto.
    apply (activate_row_cases userID (clock w (ticks w)) r).
  - world_simpl. unfold update_users. f_equal. simpl.
    rewrite map_map. apply map_ext. intros r.
    apply (activate_row_twice userID (clock w (ticks w))).
Qed.

Lemma ActivateUser_idempotent_witness :
  let w1 := snd (ActivateUser 3 sample_world) in
  db_up sample_world
  /\ User.VerifiedAt <$> users (store w1) = [Some 20; Some 21; Some 100]
  /\ store (snd (ActivateUser 3 w1)) = store w1.
Proof.
  intros w1. split; [constructor|]. split; [reflexivity|].
  apply (ActivateUser_idempotent 3 sample_world (List.Forall_nil _)).
Defined.

(** *** Paging *)

Lemma In_firstn {A} n (l : list A) x : In x (firstn n l) -> In x l.
Proof.
  revert l. induction n as [|n IH]; intros [|a l]; simpl; try contradiction.
  intros [->|H]; [now left|right; now apply IH].
Qed.

Lemma In_skipn {A} n (l : list A) x : In x (skipn n l) -> In x l.
Proof.
  revert l. induction n as [|n IH]; intros [|a l]; simpl; auto.
Qed.

Lemma select_users_normal s :
  select_users columns NormalUser s = map (scan columns) (normal_users s).
Proof.
  unfold select_users, normal_users. f_equal.
  apply List.filter_ext. exact holds_NormalUser.
Qed.

Lemma ListAllUsers_ok Wrap_nil page per w :
  fst (next_fault w) = false ->
  fst (fst (ListAllUsers Wrap_nil page per w))
  = map (scan columns)
      (firstn (N.to_nat per)
         (skipn (N.to_nat (uint64_mul page per)) (normal_users (store w)))).
Proof.
  intros Hf. unfold ListAllUsers. rewrite sqlx_Select_ok by assumption.
  simpl. rewrite select_users_normal.
  now rewrite skipn_map, firstn_map.
Qed.

(** C7, as the code has it: with the database up, [ListAllUsers] returns
    normal users only, at most [per] of them, namely those that follow the
    first [offset] normal users in store order, where [offset] is the
    unsigned 64-bit product of [page] and [per]; the offset is
    [page * per] whenever that is below 2^64, and with [page = 1] and
    [per = 10] the result is the 11th to the 20th normal user. *)
Theorem ListAllUsers_window (Wrap_nil : option errors.Error) (page per : N)
    (w : World) :
  db_up w ->
  let rows := fst (fst (ListAllUsers Wrap_nil page per w)) in
  let offset := N.to_nat ((page * per) mod 2 ^ 64)%N in
  rows = map (scan columns)
           (firstn (N.to_nat per) (skipn offset (normal_users (store w))))
  /\ (length rows <= N.to_nat per)%nat
  /\ (forall u, In u rows -> User.DeletedAt u = None)
  /\ ((page * per < 2 ^ 64)%N -> offset = N.to_nat (page * per))
  /\ (page = 1%N -> per = 10%N ->
      rows = map (scan columns)
               (firstn 10 (skipn 10 (normal_users (store w))))).
Proof.
  intros Hup rows offset.
  assert (Hrows : rows = map (scan columns)
           (firstn (N.to_nat per) (skipn offset (normal_users (store w))))).
  { subst rows. now rewrite ListAllUsers_ok by calls_ok. }
  split; [exact Hrows|]. split; [|split; [|split]].
  - rewrite Hrows, length_map. apply firstn_le_length.
  - intros u Hu. rewrite Hrows in Hu.
    apply in_map_iff in Hu as (r & <- & Hr).
    apply In_firstn, In_skipn in Hr. unfold normal_users in Hr.
    apply filter_In in Hr as (_ & Hn). rewrite scan_columns. simpl.
    now apply is_normal_true.
  - intros Hlt. subst offset. now rewrite N.mod_small.
  - intros -> ->. exact Hrows.
Qed.

Lemma ListAllUsers_window_witness :
  db_up sample_world
  /\ fst (fst (ListAllUsers None 1 1 sample_world)) = [carol].
Proof.
  split; [constructor|].
  rewrite (proj1 (ListAllUsers_window None 1 1 sample_world
                    (List.Forall_nil _))).
  reflexivity.
Defined.

(** C7 with the plain product fails when the product overflows: with
    [page = 2^63] and [per = 2] the product is 2^64, more than the two
    normal users there are, so skipping that many would leave nothing;
    the offset sent to the store is 0 and both normal users come back. *)
Lemma ListAllUsers_offset_wraps :
  (2 ^ 63 * 2 = 2 ^ 64)%N
  /\ length (normal_users (store sample_world)) = 2%nat
  /\ skipn (N.to_nat (2 ^ 63 * 2)) (normal_users (store sample_world)) = []
  /\ fst (fst (ListAllUsers None (2 ^ 63) 2 sample_world)) = [alice; carol].
Proof.
  split; [reflexivity|]. split; [reflexivity|]. split; [|reflexivity].
  apply skipn_all2.
  change (length (normal_users (store sample_world))) with 2%nat.
  change (2 ^ 63 * 2)%N with (2 ^ 64)%N. lia.
Qed.

(** *** Namespace enrichment *)

Lemma collect_users_keys h users : forall ids0 m0 ids m,
  collect_users h users ids0 m0 = Ok (ids, m) ->
  (forall k, In k ids0 -> exists a, m0 !! k = Some (Some a)) ->
  forall k, In k ids -> exists a, m !! k = Some (Some a).
Proof.
  induction users as [|u rest IH]; simpl; intros ids0 m0 ids m Hc Hinv.
  - injection Hc as <- <-. exact Hinv.
  - destruct u as [a|]; [|discriminate].
    destruct (h !! a) as [obj|] eqn:Ha; [|discriminate].
    apply (IH _ _ _ _ Hc). intros k Hk.
    destruct (decide (User.ID obj = k)) as [<-|Hne].
    + exists a. apply lookup_insert_eq.
    + rewrite lookup_insert_ne by exact Hne. apply Hinv.
      apply in_app_or in Hk as [Hk|[Hk|[]]]; [exact Hk|contradiction].
Qed.

Lemma collect_users_panic h users : forall ids0 m0 p,
  collect_users h users ids0 m0 = Panic p ->
  p = NilUserElement \/ p = Unallocated.
Proof.
  induction users as [|u rest IH]; simpl; intros ids0 m0 p Hc.
  - discriminate.
  - destruct u as [a|]; [|injection Hc as <-; now left].
    destruct (h !! a) as [obj|]; [|injection Hc as <-; now right].
    exact (IH _ _ _ Hc).
Qed.

Lemma collect_users_no_Err h users : forall ids0 m0 e,
  collect_users h users ids0 m0 <> Err e.
Proof.
  induction users as [|u rest IH]; simpl; intros ids0 m0 e.
  - discriminate.
  - destruct u as [a|]; [|discriminate].
    destruct (h !! a) as [obj|]; [|discriminate]. apply IH.
Qed.

Lemma fill_namespaces_Ok (userMap : gmap Z ptr) ns : forall h,
  Forall (fun n => exists a, userMap !! Namespace.OwnerID n = Some (Some a))
    ns ->
  exists h', fill_namespaces userMap ns h = Ok h'.
Proof.
  induction ns as [|n rest IH]; simpl; intros h Hall.
  - eauto.
  - inversion Hall as [|? ? (a & Ha) Hrest]; subst.
    unfold map_index. rewrite Ha. simpl. now apply IH.
Qed.

Section EnrichmentProps.

Variable ListNamespacesByOwner :
  Namespace.OwnerKind -> list Z ->
  World -> (list Namespace.t * option errors.Error) * World.

(** C10: if every namespace that [ListNamespacesByOwner] returns for the
    collected user ids is owned by one of those ids, then
    [fillNamespaceInUsers] never dereferences a nil map entry, whatever
    the input slice; and when the first loop and the query go through,
    the call returns. *)
Theorem fillNamespaceInUsers_no_nil_entry (users : list ptr)
    (h : gmap nat User.t) (w : World) :
  (forall ids m ns w',
      collect_users h users [] ∅ = Ok (ids, m) ->
      ListNamespacesByOwner Namespace.TypeUser ids w = ((ns, None), w') ->
      Forall (fun n => In (Namespace.OwnerID n) ids) ns) ->
  fst (fillNamespaceInUsers ListNamespacesByOwner users h w)
    <> Panic NilMapEntry
  /\ (forall ids m ns w',
      collect_users h users [] ∅ = Ok (ids, m) ->
      ListNamespacesByOwner Namespace.TypeUser ids w = ((ns, None), w') ->
      exists h',
        fst (fillNamespaceInUsers ListNamespacesByOwner users h w) = Ok h').
Proof.
  intros Hpre.
  assert (Hgo : forall ids m ns w',
      collect_users h users [] ∅ = Ok (ids, m) ->
      ListNamespacesByOwner Namespace.TypeUser ids w = ((ns, None), w') ->
      exists h',
        fst (fillNamespaceInUsers ListNamespacesByOwner users h w) = Ok h').
  { intros ids m ns w' Hc HL. unfold fillNamespaceInUsers.
    erewrite bind_Ok by (unfold lift_res; rewrite Hc; reflexivity).
    erewrite bind_Ok by (unfold go_call; simpl; rewrite HL; reflexivity).
    unfold lift_res. simpl.
    apply fill_namespaces_Ok.
    eapply List.Forall_impl; [|exact (Hpre ids m ns w' Hc HL)].
    intros n Hn. simpl in Hn.
    apply (collect_users_keys h users [] ∅ ids m Hc); [|exact Hn].
    intros k []. }
  split; [|exact Hgo].
  destruct (collect_users h users [] ∅) as [[ids m]|e|p] eqn:Hc.
  - destruct (ListNamespacesByOwner Namespace.TypeUser ids w)
      as [[ns [err|]] w'] eqn:HL.
    + unfold fillNamespaceInUsers.
      erewrite bind_Ok by (unfold lift_res; rewrite Hc; reflexivity).
      erewrite bind_Err by (unfold go_call; simpl; rewrite HL; reflexivity).
      discriminate.
    + destruct (Hgo ids m ns w' eq_refl HL) as (h' & ->). discriminate.
  - now contradiction (collect_users_no_Err h users [] ∅ e).
  - unfold fillNamespaceInUsers.
    erewrite bind_Panic by (unfold lift_res; rewrite Hc; reflexivity).
    simpl. intros [= ->].
    destruct (collect_users_panic h users [] ∅ _ Hc); discriminate.
Qed.

End EnrichmentProps.

Lemma fillNamespaceInUsers_no_nil_entry_witness :
  fst (fillNamespaceInUsers sample_ListNamespacesByOwner
         [Some 0%nat; Some 1%nat] sample_heap sample_world)
  <> Panic NilMapEntry.
Proof.
  apply (fillNamespaceInUsers_no_nil_entry sample_ListNamespacesByOwner
           [Some 0%nat; Some 1%nat] sample_heap sample_world).
  intros ids m ns w' Hc HL.
  vm_compute in Hc. injection Hc as <- <-.
  vm_compute in HL. injection HL as <- _.
  repeat first [apply List.Forall_nil | apply List.Forall_cons];
    simpl; auto.
Defined.

(** The precondition is what keeps the second loop safe: a query that
    hands back a namespace of an owner outside the input runs into the nil
    map entry. *)
Example fillNamespaceInUsers_stray_owner :
  fst (fillNamespaceInUsers stray_ListNamespacesByOwner
         [Some 0%nat; Some 1%nat] sample_heap sample_world)
  = Panic NilMapEntry.
Proof. reflexivity. Qed.

(** [ListAdminUsers] on the sample store: carol is the one normal admin,
    and her object comes back with her namespace filled in. *)
Example ListAdminUsers_sample :
  match fst (ListAdminUsers sample_ListNamespacesByOwner ∅ sample_world) with
  | Ok (ps, h) =>
      ps = [Some 0%nat]
      /\ h !! 0%nat
         = Some (User.set_ns (Some (Namespace.mk 3 Namespace.TypeUser "carol"))
                   carol)
  | _ => False
  end.
Proof. vm_compute. split; reflexivity. Qed.

(** ** Further properties *)

(** *** Lists *)

Lemma find_app_skip {A} (p : A -> bool) l l' :
  (forall x, In x l -> p x = false) -> find p (l ++ l') = find p l'.
Proof.
  induction l as [|a l IH]; simpl; intros H; [reflexivity|].
  rewrite (H a) by now left. apply IH. intros x Hx. apply H. now right.
Qed.

Lemma find_map_stable {A} (p : A -> bool) (f : A -> A) l :
  (forall x, p (f x) = p x) ->
  find p (map f l) = option_map f (find p l).
Proof.
  intros H. induction l as [|a l IH]; simpl; [reflexivity|].
  rewrite H. destruct (p a); [reflexivity|exact IH].
Qed.

Lemma first_or_nil_const {A} (l : list A) x y :
  In y l -> (forall z, In z l -> z = x) -> first_or_nil l = Some x.
Proof.
  destruct l as [|a l]; simpl; [contradiction|].
  intros _ H. f_equal. apply H. now left.
Qed.

(** *** Registration *)

Lemma AddUser_ok next_id user w :
  fst (next_fault w) = false ->
  AddUser next_id user w
  = (Ok (set_ID (next_id (store w)) user),
     set_store
       (mkStore
          (users (store w) ++ [registered_row (next_id (store w)) user])
          (sessions (store w)) (namespaces (store w)))
       (snd (next_fault w))).
Proof.
  intros Hf. unfold AddUser.
  erewrite bind_Ok; [reflexivity|].
  apply map_err_Ok. unfold sqlx_QueryRowx_Scan.
  pose proof (nf_store w) as Hs.
  destruct (next_fault w) as [bad w']. simpl in *. subst bad.
  now rewrite Hs.
Qed.

Lemma AddUser_bad next_id user w :
  fst (next_fault w) = true ->
  AddUser next_id user w
  = (Err (errors.Wrap errors.DriverErr), snd (next_fault w)).
Proof.
  intros Hf. unfold AddUser.
  erewrite bind_Err; [reflexivity|].
  unfold map_err, sqlx_QueryRowx_Scan.
  destruct (next_fault w) as [bad w']. simpl in *. now subst bad.
Qed.

Lemma registered_row_normal id user :
  is_normal (registered_row id user) = true.
Proof. reflexivity. Qed.

(** X1: a registration that goes through can be read back: when no
    normal row already carries the id the database hands out, [GetUser]
    on the id left in the struct returns the stored row, which has the
    struct's columns and null deleted, verified and last-login columns
    whatever the struct held there. *)
Theorem AddUser_then_GetUser (next_id : Store -> Z) (user : User.t)
    (w : World) :
  db_up w ->
  (forall r, In r (users (store w)) -> User.DeletedAt r = None ->
             User.ID r <> next_id (store w)) ->
  exists user' w1,
    AddUser next_id user w = (Ok user', w1)
    /\ User.ID user' = next_id (store w)
    /\ set_ID 0 user' = set_ID 0 user
    /\ fst (GetUser (User.ID user') w1)
       = Ok (Some (registered_row (next_id (store w)) user)).
Proof.
  intros Hup Hfresh. eexists. eexists.
  split; [apply AddUser_ok; calls_ok|].
  split; [reflexivity|]. split; [reflexivity|].
  unfold GetUser. rewrite getUser_ok by calls_ok. world_simpl.
  rewrite find_app_skip.
  - simpl. rewrite Z.eqb_refl. simpl. now rewrite scan_columns.
  - intros r Hr. simpl.
    destruct (is_normal r) eqn:En; [|apply andb_false_r].
    rewrite andb_true_r. apply Z.eqb_neq, Hfresh; [exact Hr|].
    now apply is_normal_true.
Qed.

Lemma AddUser_then_GetUser_witness :
  exists user' w1,
    AddUser sample_next_id dave sample_world = (Ok user', w1)
    /\ User.ID user' = 4
    /\ set_ID 0 user' = set_ID 0 dave
    /\ fst (GetUser (User.ID user') w1)
       = Ok (Some (registered_row 4 dave)).
Proof.
  apply (AddUser_then_GetUser sample_next_id dave sample_world).
  - constructor.
  - intros r [<-|[<-|[<-|[]]]] _; simpl; discriminate.
Defined.

Lemma db_up_set_store s w : db_up w -> db_up (set_store s w).
Proof. exact (fun H => H). Qed.
Lemma db_up_set_ticks n w : db_up w -> db_up (set_ticks n w).
Proof. exact (fun H => H). Qed.
Lemma db_up_set_drawn n w : db_up w -> db_up (set_drawn n w).
Proof. exact (fun H => H). Qed.
Lemma db_up_set_cookies c w : db_up w -> db_up (set_cookies c w).
Proof. exact (fun H => H). Qed.

Ltac db_ok :=
  autorewrite with world;
  repeat first
    [ assumption | apply db_up_set_store | apply db_up_set_ticks
    | apply db_up_set_drawn | apply db_up_set_cookies | apply db_up_after ].

Lemma activate_row_keeps userID now r :
  without_last_login
    (User.set_VerifiedAt None (activate_row userID now r))
  = without_last_login (User.set_VerifiedAt None r)
  /\ User.LastLoginAt (activate_row userID now r) = User.LastLoginAt r
  /\ User.LastLoginIP (activate_row userID now r) = User.LastLoginIP r.
Proof.
  unfold activate_row.
  destruct (sq.holds _ r); repeat split.
Qed.

Lemma activate_row_matching x userID now r :
  identifies x (activate_row userID now r) && is_normal (activate_row userID now r)
  = identifies x r && is_normal r.
Proof.
  unfold activate_row. destruct (sq.holds _ r); reflexivity.
Qed.

Lemma matching_user_registered s x id user :
  identifies x user = true ->
  (forall r, In r (users s) -> User.DeletedAt r = None ->
             identifies x r = false) ->
  find (fun r => identifies x r && is_normal r)
    (users s ++ [registered_row id user])
  = Some (registered_row id user).
Proof.
  intros Hx Hno. rewrite find_app_skip.
  - simpl. change (identifies x (registered_row id user))
      with (identifies x user). now rewrite Hx.
  - intros r Hr. destruct (is_normal r) eqn:En; [|apply andb_false_r].
    rewrite andb_true_r. apply Hno; [exact Hr|now apply is_normal_true].
Qed.

Section LifecycleProps.

Variable ComparePassword : string -> string -> bool.
Variable Namespace_of : Store -> User.t -> option Namespace.t.
Variable next_id : Store -> Z.

(** X2: a user who has just registered cannot log in: when the
    identifier is the new user's (and matched no normal row before), a
    login right after [AddUser] fails with AccessDenied, whatever the
    password. *)
Theorem AddUser_then_Login_denied (user : User.t) (x : string) (w : World) :
  db_up w ->
  identifies x user = true ->
  (forall r, In r (users (store w)) -> User.DeletedAt r = None ->
             identifies x r = false) ->
  forall ctx password,
    fst (Login ComparePassword Namespace_of ctx
           (mkLoginUserPayload x password)
           (snd (AddUser next_id user w)))
    = Err (errors.AccessDenied errors.User errors.NotActivated).
Proof.
  intros Hup Hx Hno ctx password.
  rewrite AddUser_ok by calls_ok. simpl snd.
  erewrite Login_validate_Err; [reflexivity|].
  rewrite validate_ok by calls_ok. unfold matching_user. world_simpl.
  rewrite (matching_user_registered _ _ _ _ Hx Hno). reflexivity.
Qed.

(** X3: registration, activation and login compose: after [AddUser] and
    [ActivateUser] on the id it returned, a login with the new user's
    identifier and a password its hash accepts returns, and the one
    session row it adds is owned by that id. *)
Theorem AddUser_ActivateUser_Login (user : User.t) (x password : string)
    (n : Namespace.t) (ctx : Context) (w : World) :
  db_up w ->
  identifies x user = true ->
  (forall r, In r (users (store w)) -> User.DeletedAt r = None ->
             identifies x r = false) ->
  ComparePassword (User.EncryptedPassword user) password = true ->
  (forall s' u, namespaces s' = namespaces (store w) ->
                User.ID u = next_id (store w) ->
                Namespace_of s' u = Some n) ->
  let w1 := snd (AddUser next_id user w) in
  let w2 := snd (ActivateUser (next_id (store w)) w1) in
  exists res w3 sess,
    Login ComparePassword Namespace_of ctx (mkLoginUserPayload x password) w2
    = (Ok res, w3)
    /\ sessions (store w3) = (sessions (store w) ++ [sess])%list
    /\ Session.OwnerID sess = next_id (store w)
    /\ Session.Token sess = res_Token res.
Proof.
  intros Hup Hx Hno Hpw Hns w1 w2.
  set (id := next_id (store w)) in *.
  assert (Hw1 : w1 = set_store
       (mkStore (users (store w) ++ [registered_row id user])
          (sessions (store w)) (namespaces (store w)))
       (snd (next_fault w))).
  { subst w1. now rewrite AddUser_ok by calls_ok. }
  clearbody w1.
  assert (Hup1 : db_up w1) by (rewrite Hw1; db_ok).
  assert (Hw2 : w2 = set_store
       (update_users [(sq.verified_at, sq.VInt (clock w1 (ticks w1)))]
          (sq.And [sq.Eq sq.id (sq.VInt id); InactivateUser]) (store w1))
       (snd (next_fault (set_ticks (S (ticks w1)) w1)))).
  { subst w2. now rewrite ActivateUser_ok by calls_ok. }
  clearbody w2.
  assert (Hup2 : db_up w2) by (rewrite Hw2; db_ok).
  set (row := User.set_VerifiedAt (Some (clock w1 (ticks w1)))
                (registered_row id user)).
  assert (Hm : matching_user (store w2) x = Some row).
  { unfold matching_user. rewrite Hw2. simpl store. unfold update_users.
    simpl users.
    change (map _ (users (store w1)))
      with (map (activate_row id (clock w1 (ticks w1))) (users (store w1))).
    rewrite find_map_stable by (intros r; apply activate_row_matching).
    assert (Hu1 : users (store w1)
                  = (users (store w) ++ [registered_row id user])%list)
      by (rewrite Hw1; reflexivity).
    rewrite Hu1, (matching_user_registered _ _ _ _ Hx Hno). simpl. f_equal.
    apply (proj1 (activate_row_cases id (clock w1 (ticks w1))
                    (registered_row id user))); reflexivity. }
  destruct (Login_Ok_intro ComparePassword Namespace_of ctx
              (mkLoginUserPayload x password) w2 row n Hup2 Hm eq_refl Hpw)
    as (res & w3 & HL).
  { intros s' Hs'. apply Hns; [|reflexivity].
    rewrite Hs', Hw2, Hw1. reflexivity. }
  exists res, w3, (issued_session w2 id (ctx_ClientIP ctx)).
  split; [exact HL|].
  apply Login_Ok_inv in HL as (r' & n' & Hm' & _ & _ & _ & -> & Hst & _).
  simpl in Hm'. rewrite Hm in Hm'. injection Hm' as <-.
  rewrite Hst. simpl. rewrite Hw2, Hw1. repeat split.
Qed.

End LifecycleProps.

Lemma AddUser_then_Login_denied_witness :
  fst (Login sample_ComparePassword sample_Namespace_of sample_ctx
         (mkLoginUserPayload "dave" "diver")
         (snd (AddUser sample_next_id dave sample_world)))
  = Err (errors.AccessDenied errors.User errors.NotActivated).
Proof.
  apply (AddUser_then_Login_denied sample_ComparePassword
           sample_Namespace_of sample_next_id dave "dave" sample_world).
  - constructor.
  - reflexivity.
  - intros r [<-|[<-|[<-|[]]]] _; reflexivity.
Defined.

Lemma AddUser_ActivateUser_Login_witness :
  let w1 := snd (AddUser sample_next_id dave prepared_world) in
  let w2 := snd (ActivateUser 4 w1) in
  exists res w3 sess,
    Login sample_ComparePassword sample_Namespace_of sample_ctx
      (mkLoginUserPayload "dave@example.org" "diver") w2
    = (Ok res, w3)
    /\ sessions (store w3) = (sessions (store prepared_world) ++ [sess])%list
    /\ Session.OwnerID sess = 4
    /\ Session.Token sess = res_Token res.
Proof.
  apply (AddUser_ActivateUser_Login sample_ComparePassword
           sample_Namespace_of sample_next_id dave "dave@example.org" "diver"
           (Namespace.mk 4 Namespace.TypeUser "dave") sample_ctx
           prepared_world).
  - constructor.
  - reflexivity.
  - intros r [<-|[<-|[<-|[]]]] _; reflexivity.
  - reflexivity.
  - intros s' u Hs' Hu. unfold sample_Namespace_of. rewrite Hs', Hu.
    reflexivity.
Defined.

(** *** More on the login flow *)

Lemma UpdateLogin_bad userID clientIP w :
  fst (next_fault w) = true ->
  UpdateLogin userID clientIP w
  = (Err (errors.Wrap errors.DriverErr),
     snd (next_fault (set_ticks (S (ticks w)) w))).
Proof.
  intros Hf. unfold UpdateLogin, update.
  erewrite bind_Ok by reflexivity.
  unfold map_err. rewrite sqlx_Exec_bad by now rewrite nf_set_ticks.
  reflexivity.
Qed.

Lemma AddSession_bad sess w :
  fst (next_fault w) = true ->
  AddSession sess w
  = (Err (errors.Wrap errors.DriverErr), snd (next_fault w)).
Proof.
  intros Hf. unfold AddSession, map_err. now rewrite sqlx_Exec_bad.
Qed.

Lemma login_row_keeps userID clientIP loginAt r :
  let r' := if (User.ID r =? userID)%Z
            then User.set_LastLoginIP (Some clientIP)
                   (User.set_LastLoginAt (Some loginAt) r)
            else r in
  without_last_login r' = without_last_login r
  /\ User.ID r' = User.ID r.
Proof. simpl. destruct (User.ID r =? userID)%Z; split; reflexivity. Qed.

Section LoginMoreProps.

Variable ComparePassword : string -> string -> bool.
Variable Namespace_of : Store -> User.t -> option Namespace.t.

Lemma validate_cookies x pw w :
  cookies (snd (validate ComparePassword x pw w)) = cookies w.
Proof.
  destruct (fst (next_fault w)) eqn:E.
  - rewrite validate_bad by assumption. apply nf_cookies.
  - rewrite validate_ok by assumption. apply nf_cookies.
Qed.

Lemma login_tx_fail_cookies ctx u clientIP w :
  (forall a, fst (login_tx Namespace_of ctx u clientIP w) <> Ok a) ->
  cookies (snd (login_tx Namespace_of ctx u clientIP w)) = cookies w.
Proof.
  unfold login_tx. destruct (fst (next_fault w)) eqn:E1.
  - erewrite bind_Err by (apply UpdateLogin_bad; exact E1).
    intros _. world_simpl. reflexivity.
  - erewrite bind_Ok by (apply UpdateLogin_ok; exact E1).
    erewrite bind_Ok by apply buildSession_eq. cbv beta.
    match goal with
    | |- context [mbind _ (AddSession _) ?W] =>
        destruct (fst (next_fault W)) eqn:E2
    end.
    + erewrite bind_Err by (apply AddSession_bad; exact E2).
      intros _. world_simpl. reflexivity.
    + erewrite bind_Ok by (apply AddSession_ok; exact E2). cbv beta.
      match goal with
      | |- context [mbind _ (user_Namespace _ _) ?W] =>
          destruct (Namespace_of (store W) u) as [n|] eqn:En
      end.
      * erewrite bind_Ok by (unfold user_Namespace; rewrite En; reflexivity).
        erewrite bind_Ok by reflexivity.
        intros H. now contradiction (H _ eq_refl).
      * erewrite bind_Panic
          by (unfold user_Namespace; rewrite En; reflexivity).
        intros _. world_simpl. reflexivity.
Qed.


Lemma Login_store_cases ctx req w :
  let out := Login ComparePassword Namespace_of ctx req w in
  store (snd out) = store w
  \/ exists r, In r (users (store w))
       /\ store (snd out)
          = login_writes (store w) (User.ID r) (ctx_ClientIP ctx)
              (clock w (ticks w))
              (issued_session w (User.ID r) (ctx_ClientIP ctx)).
Proof.
  intros out. subst out.
  destruct (Login ComparePassword Namespace_of ctx req w) as [[res|e|p] w']
    eqn:HL.
  - right. apply Login_Ok_inv in HL as (r & n & Hm & _ & _ & _ & _ & Hst & _).
    exists r. split; [|exact Hst].
    unfold matching_user in Hm. now apply find_some in Hm.
  - left. revert HL. unfold Login.
    pose proof (validate_store ComparePassword (req_Email req)
                  (req_Password req) w) as Hs.
    destruct (validate ComparePassword (req_Email req) (req_Password req) w)
      as [[u|e0|p0] w1] eqn:Hv; simpl in Hs.
    + erewrite bind_Ok by exact Hv. unfold Transact.
      destruct (login_tx Namespace_of ctx u (ctx_ClientIP ctx) w1)
        as [[a|e1|p1] w2]; intros [= <- <-]. exact Hs.
    + erewrite bind_Err by exact Hv. intros [= <- <-]. exact Hs.
    + erewrite bind_Panic by exact Hv. discriminate.
  - left. revert HL. unfold Login.
    pose proof (validate_store ComparePassword (req_Email req)
                  (req_Password req) w) as Hs.
    destruct (validate ComparePassword (req_Email req) (req_Password req) w)
      as [[u|e0|p0] w1] eqn:Hv; simpl in Hs.
    + erewrite bind_Ok by exact Hv. unfold Transact.
      destruct (login_tx Namespace_of ctx u (ctx_ClientIP ctx) w1)
        as [[a|e1|p1] w2]; intros [= <- <-]. exact Hs.
    + erewrite bind_Err by exact Hv. discriminate.
    + erewrite bind_Panic by exact Hv. intros [= <- <-]. exact Hs.
Qed.

(** X5: whatever its outcome, [Login] never touches the namespace table,
    never removes or alters an existing session (it adds at most one row
    at the end), and changes no column of any user row other than the two
    last-login columns; every row keeps its id and its place. *)
Theorem Login_preserves (ctx : Context) (req : LoginUserPayload)
    (w : World) :
  let s' := store (snd (Login ComparePassword Namespace_of ctx req w)) in
  namespaces s' = namespaces (store w)
  /\ (exists added, sessions s' = (sessions (store w) ++ added)%list
                    /\ (length added <= 1)%nat)
  /\ Forall2 (fun r r' => without_last_login r' = without_last_login r)
       (users (store w)) (users s').
Proof.
  intros s'. subst s'.
  assert (Hrefl : forall l : list User.t,
             Forall2 (fun r r' => without_last_login r' = without_last_login r)
               l l).
  { induction l; constructor; auto. }
  destruct (Login_store_cases ctx req w) as [->|(r & _ & ->)].
  - split; [reflexivity|]. split; [|apply Hrefl].
    exists []. split; [now rewrite app_nil_r|simpl; lia].
  - split; [reflexivity|]. split.
    + eexists. split; [reflexivity|]. simpl. lia.
    + simpl. induction (users (store w)) as [|a l IH]; simpl;
        constructor; auto.
      apply (login_row_keeps (User.ID r) (ctx_ClientIP ctx)
               (clock w (ticks w)) a).
Qed.

(** X6: the identifier is looked up in one column only.  With the
    database up, an identifier that contains an "@" which is no normal
    user's email is NotFound even when it is somebody's username, and an
    identifier without "@" which is no normal user's username is NotFound
    even when it is somebody's email. *)
Theorem Login_identifier_column (ctx : Context) (req : LoginUserPayload)
    (w : World) :
  db_up w ->
  let x := req_Email req in
  let login := fst (Login ComparePassword Namespace_of ctx req w) in
  (Contains x "@" = true ->
   (forall r, In r (users (store w)) -> User.DeletedAt r = None ->
              User.Email r <> x) ->
   login = Err (errors.NotFoundError errors.User))
  /\ (Contains x "@" = false ->
      (forall r, In r (users (store w)) -> User.DeletedAt r = None ->
                 User.Username r <> x) ->
      login = Err (errors.NotFoundError errors.User)).
Proof.
  intros Hup x login. subst login.
  assert (Hnone : (forall r, In r (users (store w)) ->
                     User.DeletedAt r = None -> identifies x r = false) ->
    fst (Login ComparePassword Namespace_of ctx req w)
    = Err (errors.NotFoundError errors.User)).
  { intros Hno. erewrite Login_validate_Err; [reflexivity|].
    rewrite validate_ok by calls_ok. fold x.
    assert (Hm : matching_user (store w) x = None).
    { unfold matching_user.
      destruct (find _ _) as [r|] eqn:E; [|reflexivity].
      apply find_some in E as (Hr & Hc).
      apply andb_true_iff in Hc as (Hc & Hn). apply is_normal_true in Hn.
      rewrite (Hno r Hr Hn) in Hc. discriminate. }
    rewrite Hm. reflexivity. }
  split; intros Hat Hno; apply Hnone; intros r Hr Hn;
    unfold identifies; rewrite Hat; apply String.eqb_neq; now apply Hno.
Qed.

End LoginMoreProps.

Lemma Login_identifier_column_witness :
  db_up eve_world
  /\ existsb (fun r => String.eqb (User.Username r) "eve@corp")
       (users (store eve_world)) = true
  /\ fst (Login sample_ComparePassword sample_Namespace_of sample_ctx
            (mkLoginUserPayload "eve@corp" "apple") eve_world)
     = Err (errors.NotFoundError errors.User).
Proof.
  split; [constructor|]. split; [reflexivity|].
  apply (proj1 (Login_identifier_column sample_ComparePassword
                  sample_Namespace_of sample_ctx
                  (mkLoginUserPayload "eve@corp" "apple") eve_world
                  (List.Forall_nil _))).
  - reflexivity.
  - intros r [<-|[<-|[]]] _; discriminate.
Defined.


Lemma login_row_matching x userID clientIP loginAt r :
  let r' := if (User.ID r =? userID)%Z
            then User.set_LastLoginIP (Some clientIP)
                   (User.set_LastLoginAt (Some loginAt) r)
            else r in
  identifies x r' && is_normal r' = identifies x r && is_normal r.
Proof. simpl. destruct (User.ID r =? userID)%Z; reflexivity. Qed.

Section LoginSessionProps.

Variable ComparePassword : string -> string -> bool.
Variable Namespace_of : Store -> User.t -> option Namespace.t.

(** What a login that returns has used up. *)
Lemma Login_Ok_frame ctx req w res w' :
  Login ComparePassword Namespace_of ctx req w = (Ok res, w') ->
  clock w' = clock w /\ ticks w' = S (S (S (ticks w)))
  /\ uuids w' = uuids w /\ drawn w' = S (drawn w)
  /\ (db_up w -> db_up w').
Proof.
  unfold Login. intros H.
  apply bind_Ok_inv in H as (u & w1 & Hv & H).
  apply validate_Ok_inv in Hv as (r & Hm & Hver & Hc & -> & Hf1 & ->).
  unfold Transact in H.
  destruct (login_tx Namespace_of ctx (scan columns r) (ctx_ClientIP ctx)
              (snd (next_fault w))) as [[a|e|p] w2] eqn:Htx;
    try discriminate.
  injection H as -> ->. unfold login_tx in Htx.
  apply bind_Ok_inv in Htx as (u1 & w3 & Hu & Htx).
  apply UpdateLogin_Ok_inv in Hu as (Hf2 & ->).
  apply bind_Ok_inv in Htx as (sess & w4 & Hb & Htx).
  rewrite buildSession_eq in Hb. injection Hb as <- <-.
  apply bind_Ok_inv in Htx as (u2 & w5 & Ha & Htx).
  apply AddSession_Ok_inv in Ha as (Hf3 & ->).
  apply bind_Ok_inv in Htx as (n & w6 & Hn & Htx).
  unfold user_Namespace in Hn.
  destruct (Namespace_of _ _) as [n'|] eqn:En in Hn; [|discriminate].
  injection Hn as -> <-.
  apply bind_Ok_inv in Htx as (u3 & w7 & Hck & Htx).
  injection Hck as _ <-. injection Htx as <- <-.
  repeat split; try (world_simpl; reflexivity).
  intros Hup. db_ok.
Qed.

(** X7: the token a login hands out authenticates its owner.  When user
    ids are unique, the new token is carried by no earlier session and
    the next reading of the clock is not past the session's expiry,
    [GetUserByUserToken] on the token of the result returns the user the
    login matched, with the last-login columns the login has just
    written. *)
Theorem Login_then_GetUserByUserToken (ctx : Context)
    (req : LoginUserPayload) (w : World) (res : UserLoginResult)
    (w' : World) :
  Login ComparePassword Namespace_of ctx req w = (Ok res, w') ->
  db_up w ->
  List.NoDup (map User.ID (users (store w))) ->
  (forall se, In se (sessions (store w)) ->
              Session.Token se <> res_Token res) ->
  clock w (S (S (S (ticks w)))) <= clock w (S (S (ticks w))) + 30 * 24 * 3600 ->
  exists r,
    matching_user (store w) (req_Email req) = Some r
    /\ fst (GetUserByUserToken (res_Token res) w')
       = Ok (Some (scan columns
                     (User.set_LastLoginIP (Some (ctx_ClientIP ctx))
                        (User.set_LastLoginAt (Some (clock w (ticks w)))
                           r)))).
Proof.
  intros HL Hup Hnd Hfresh Htime.
  destruct (Login_Ok_frame ctx req w res w' HL)
    as (Hck & Htk & _ & _ & Hup').
  apply Login_Ok_inv in HL as (r & n & Hm & _ & _ & _ & -> & Hst & _).
  exists r. split; [exact Hm|].
  assert (Hr : In r (users (store w))).
  { unfold matching_user in Hm. now apply find_some in Hm. }
  rewrite GetUserByUserToken_ok by (apply db_up_next, Hup', Hup).
  rewrite Hst, Hck, Htk. simpl res_Token in *. f_equal.
  set (g := fun a : User.t =>
              if (User.ID a =? User.ID r)%Z
              then User.set_LastLoginIP (Some (ctx_ClientIP ctx))
                     (User.set_LastLoginAt (Some (clock w (ticks w))) a)
              else a).
  assert (Hg : g r = User.set_LastLoginIP (Some (ctx_ClientIP ctx))
                       (User.set_LastLoginAt (Some (clock w (ticks w))) r)).
  { unfold g. now rewrite Z.eqb_refl. }
  assert (Hgid : forall a, User.ID (g a) = User.ID a).
  { intros a. unfold g. now destruct (User.ID a =? User.ID r)%Z. }
  rewrite <- Hg.
  apply first_or_nil_const with (y := scan columns (g r)).
  - apply In_join. exists (g r). split; [|split; [reflexivity|]].
    + simpl. apply in_map_iff. exists r. auto.
    + exists (issued_session w (User.ID r) (ctx_ClientIP ctx)).
      split; [simpl; apply in_or_app; right; now left|].
      split; [reflexivity|]. split; [exact Htime|].
      simpl. now rewrite Hgid.
  - intros z Hz.
    apply In_join in Hz as (r0 & Hr0 & -> & se & Hse & Htok & _ & Hown).
    simpl in Hr0, Hse. f_equal.
    apply in_map_iff in Hr0 as (a & <- & Ha). fold (g a). fold (g a) in Hown.
    apply in_app_or in Hse as [Hse|[<-|[]]].
    + now contradiction (Hfresh se Hse).
    + simpl in Hown. rewrite Hgid in Hown. f_equal.
      apply (NoDup_map_eq User.ID (users (store w))); auto.
Qed.

(** X8: two logins in a row for the same account both return; each adds
    its own session row for that user, the earlier row stays in place,
    and the two tokens are the two successive values of the UUID
    source. *)
Theorem Login_twice (ctx : Context) (req : LoginUserPayload) (w : World)
    (r : User.t) (t : Z) (n : Namespace.t) :
  db_up w ->
  matching_user (store w) (req_Email req) = Some r ->
  User.VerifiedAt r = Some t ->
  ComparePassword (User.EncryptedPassword r) (req_Password req) = true ->
  (forall s' u, namespaces s' = namespaces (store w) ->
                User.ID u = User.ID r -> Namespace_of s' u = Some n) ->
  exists res1 w1 res2 w2 s1 s2,
    Login ComparePassword Namespace_of ctx req w = (Ok res1, w1)
    /\ Login ComparePassword Namespace_of ctx req w1 = (Ok res2, w2)
    /\ sessions (store w2) = (sessions (store w) ++ [s1; s2])%list
    /\ Session.OwnerID s1 = User.ID r /\ Session.OwnerID s2 = User.ID r
    /\ Session.Token s1 = res_Token res1
    /\ Session.Token s2 = res_Token res2
    /\ res_Token res1 = uuids w (drawn w)
    /\ res_Token res2 = uuids w (S (drawn w)).
Proof.
  intros Hup Hm Hv Hc Hns.
  assert (Hver : User.Verified r = true).
  { unfold User.Verified. now rewrite Hv. }
  destruct (Login_Ok_intro ComparePassword Namespace_of ctx req w r n
              Hup Hm Hver Hc) as (res1 & w1 & HL1).
  { intros s' Hs'. apply Hns; [exact Hs'|now rewrite scan_columns]. }
  destruct (Login_Ok_frame ctx req w res1 w1 HL1)
    as (_ & _ & Huu & Hdr & Hup1).
  pose proof HL1 as HL1'.
  apply Login_Ok_inv in HL1' as (r1 & n1 & Hm1 & _ & _ & _ & -> & Hst1 & _).
  rewrite Hm in Hm1. injection Hm1 as <-.
  set (r' := User.set_LastLoginIP (Some (ctx_ClientIP ctx))
               (User.set_LastLoginAt (Some (clock w (ticks w))) r)).
  assert (Hm' : matching_user (store w1) (req_Email req) = Some r').
  { unfold matching_user. rewrite Hst1. simpl users.
    rewrite find_map_stable by (intros a; apply login_row_matching).
    fold (matching_user (store w) (req_Email req)). rewrite Hm. simpl.
    now rewrite Z.eqb_refl. }
  destruct (Login_Ok_intro ComparePassword Namespace_of ctx req w1 r' n
              (Hup1 Hup) Hm' Hver Hc) as (res2 & w2 & HL2).
  { intros s' Hs'. apply Hns; [|now rewrite scan_columns].
    rewrite Hs', Hst1. reflexivity. }
  pose proof HL2 as HL2'.
  apply Login_Ok_inv in HL2' as (r2 & n2 & Hm2 & _ & _ & _ & -> & Hst2 & _).
  rewrite Hm' in Hm2. injection Hm2 as <-.
  eexists. exists w1. eexists.
  exists w2, (issued_session w (User.ID r) (ctx_ClientIP ctx)),
    (issued_session w1 (User.ID r') (ctx_ClientIP ctx)).
  split; [exact HL1|]. split; [exact HL2|].
  rewrite Hst2, Hst1. simpl. rewrite <- app_assoc, Huu, Hdr.
  repeat split.
Qed.

End LoginSessionProps.

Lemma Login_then_GetUserByUserToken_witness :
  let out := Login sample_ComparePassword sample_Namespace_of sample_ctx
               (mkLoginUserPayload "alice" "wonderland") sample_world in
  exists r,
    matching_user sample_store "alice" = Some r
    /\ fst (GetUserByUserToken "uuid-0" (snd out))
       = Ok (Some (scan columns
                     (User.set_LastLoginIP (Some "192.0.2.7")
                        (User.set_LastLoginAt (Some 100) r)))).
Proof.
  intros out.
  apply (Login_then_GetUserByUserToken sample_ComparePassword
           sample_Namespace_of sample_ctx
           (mkLoginUserPayload "alice" "wonderland") sample_world
           (mkUserLoginResult "uuid-0" "alice" "Alice"
              "alice@example.org" true)
           (snd out) eq_refl).
  - constructor.
  - simpl. repeat constructor; simpl; intuition discriminate.
  - intros se [<-|[<-|[]]]; discriminate.
  - simpl. lia.
Defined.

Lemma Login_twice_witness :
  exists res1 w1 res2 w2 s1 s2,
    Login sample_ComparePassword sample_Namespace_of sample_ctx
      (mkLoginUserPayload "alice" "wonderland") sample_world = (Ok res1, w1)
    /\ Login sample_ComparePassword sample_Namespace_of sample_ctx
         (mkLoginUserPayload "alice" "wonderland") w1 = (Ok res2, w2)
    /\ sessions (store w2) = (sessions sample_store ++ [s1; s2])%list
    /\ Session.OwnerID s1 = 1 /\ Session.OwnerID s2 = 1
    /\ Session.Token s1 = res_Token res1
    /\ Session.Token s2 = res_Token res2
    /\ res_Token res1 = "uuid-0"
    /\ res_Token res2 = "uuid-n".
Proof.
  apply (Login_twice sample_ComparePassword sample_Namespace_of sample_ctx
           (mkLoginUserPayload "alice" "wonderland") sample_world alice 20
           (Namespace.mk 1 Namespace.TypeUser "alice")).
  - constructor.
  - reflexivity.
  - reflexivity.
  - reflexivity.
  - intros s' u Hs' Hu. unfold sample_Namespace_of. rewrite Hs', Hu.
    reflexivity.
Defined.

(** *** More on paging *)

Lemma firstn_app_skipn {A} n m (l : list A) :
  (firstn n l ++ firstn m (skipn n l))%list = firstn (n + m) l.
Proof.
  revert l. induction n as [|n IH]; intros l; simpl; [reflexivity|].
  destruct l as [|a l]; simpl.
  - now rewrite firstn_nil.
  - now rewrite IH.
Qed.

Lemma ListAllUsers_run Wrap_nil page per w :
  fst (next_fault w) = false ->
  ListAllUsers Wrap_nil page per w
  = ((map (scan columns)
        (firstn (N.to_nat per)
           (skipn (N.to_nat (uint64_mul page per))
              (normal_users (store w)))),
      Wrap_nil),
     snd (next_fault w)).
Proof.
  intros Hf. unfold ListAllUsers. rewrite sqlx_Select_ok by assumption.
  simpl. rewrite select_users_normal.
  now rewrite skipn_map, firstn_map.
Qed.

(** X9: consecutive pages fit together.  With the database up and no
    overflow in the offsets, page [page] followed by page [page + 1] of
    the same size is the stretch of [2 * per] normal users that starts at
    [page * per]: nothing between the two pages is skipped and nothing is
    returned twice. *)
Theorem ListAllUsers_consecutive_pages (Wrap_nil : option errors.Error)
    (page per : N) (w : World) :
  db_up w ->
  ((page + 1) * per < 2 ^ 64)%N ->
  let out1 := ListAllUsers Wrap_nil page per w in
  let out2 := ListAllUsers Wrap_nil (page + 1) per (snd out1) in
  (fst (fst out1) ++ fst (fst out2))%list
  = map (scan columns)
      (firstn (N.to_nat (2 * per))
         (skipn (N.to_nat (page * per)) (normal_users (store w)))).
Proof.
  intros Hup Hlt out1 out2. subst out2 out1.
  rewrite (ListAllUsers_run Wrap_nil page per w) by calls_ok.
  simpl snd. rewrite ListAllUsers_run by calls_ok.
  simpl fst. rewrite nf_store. unfold uint64_mul.
  rewrite !N.mod_small by lia.
  rewrite <- map_app. f_equal.
  replace (N.to_nat ((page + 1) * per))
    with (N.to_nat per + N.to_nat (page * per))%nat by lia.
  rewrite <- skipn_skipn, firstn_app_skipn. f_equal. lia.
Qed.

Lemma ListAllUsers_consecutive_pages_witness :
  let out1 := ListAllUsers None 0 1 sample_world in
  let out2 := ListAllUsers None 1 1 (snd out1) in
  (fst (fst out1) ++ fst (fst out2))%list = [alice; carol].
Proof.
  exact (ListAllUsers_consecutive_pages None 0 1 sample_world
           (List.Forall_nil _) eq_refl).
Defined.

(** X10: the ends of the listing.  With the database up, a page size of
    0 returns no rows; an offset at or past the number of normal users
    returns no rows; and page 0 with a page size that covers them returns
    every normal user, in store order. *)
Theorem ListAllUsers_ends (Wrap_nil : option errors.Error) (page per : N)
    (w : World) :
  db_up w ->
  let rows := fst (fst (ListAllUsers Wrap_nil page per w)) in
  let count := length (normal_users (store w)) in
  (per = 0%N -> rows = [])
  /\ ((page * per < 2 ^ 64)%N -> (count <= N.to_nat (page * per))%nat ->
      rows = [])
  /\ (page = 0%N -> (count <= N.to_nat per)%nat ->
      rows = map (scan columns) (normal_users (store w))).
Proof.
  intros Hup rows count. subst rows.
  rewrite ListAllUsers_run by calls_ok. simpl fst. unfold uint64_mul.
  repeat split.
  - intros ->. reflexivity.
  - intros Hlt Hc. rewrite N.mod_small by exact Hlt.
    rewrite skipn_all2 by exact Hc. now rewrite firstn_nil.
  - intros -> Hc. simpl. now rewrite firstn_all2.
Qed.

Lemma ListAllUsers_ends_witness :
  db_up sample_world
  /\ fst (fst (ListAllUsers None 0 5 sample_world)) = [alice; carol].
Proof.
  split; [constructor|].
  rewrite (proj2 (proj2 (ListAllUsers_ends None 0 5 sample_world
                           (List.Forall_nil _))) eq_refl).
  - reflexivity.
  - simpl. lia.
Defined.

(** *** Failures of the driver *)

Lemma getUser_bad cond w :
  fst (next_fault w) = true ->
  getUser cond w = (Err (errors.Wrap errors.DriverErr), snd (next_fault w)).
Proof.
  intros Hf. unfold getUser, listUsersByCond.
  erewrite bind_Err; [reflexivity|].
  unfold map_err. now rewrite sqlx_Select_bad.
Qed.



(** X12: how [ExistsEmailOrUsername] goes about its lookups.  With both
    arguments empty it answers false without calling the database at all;
    when a normal user has the given username it answers true after that
    one lookup, the email is never queried and a failing database behind
    it goes unnoticed; when the username lookup finds nobody and the
    email lookup fails, the failure is returned. *)
Theorem ExistsEmailOrUsername_lookups (username email : string) (w : World) :
  ExistsEmailOrUsername "" "" w = (Ok false, w)
  /\ (fst (next_fault w) = false ->
      (exists r, In r (users (store w)) /\ User.DeletedAt r = None
                 /\ User.Username r = username) ->
      username <> "" ->
      ExistsEmailOrUsername username email w
      = (Ok true, snd (next_fault w)))
  /\ (fst (next_fault w) = false ->
      (forall r, In r (users (store w)) -> User.DeletedAt r = None ->
                 User.Username r <> username) ->
      username <> "" -> email <> "" ->
      fst (next_fault (snd (next_fault w))) = true ->
      fst (ExistsEmailOrUsername username email w)
      = Err (errors.Wrap errors.DriverErr)).
Proof.
  split; [reflexivity|]. split.
  - intros Hf (r & Hr & Hn & Hu) Hne. unfold ExistsEmailOrUsername.
    apply length_pos_nonempty in Hne. rewrite Hne.
    erewrite bind_Ok by (apply getUser_ok; exact Hf).
    destruct (find _ _) as [r0|] eqn:E; [reflexivity|].
    exfalso. apply (find_none _ _ E) in Hr. simpl in Hr.
    apply is_normal_true in Hn. rewrite Hn, andb_true_r in Hr.
    apply String.eqb_neq in Hr. contradiction.
  - intros Hf Hno Hnu Hne Hf2. unfold ExistsEmailOrUsername.
    apply length_pos_nonempty in Hne, Hnu. rewrite Hne, Hnu.
    erewrite bind_Ok by (apply getUser_ok; exact Hf).
    destruct (find _ _) as [r0|] eqn:E.
    + exfalso. apply find_some in E as (Hr & Hc).
      apply andb_true_iff in Hc as (Hc & Hn). simpl in Hc.
      apply String.eqb_eq in Hc. apply is_normal_true in Hn.
      exact (Hno r0 Hr Hn Hc).
    + simpl. erewrite bind_Err by (apply getUser_bad; exact Hf2).
      reflexivity.
Qed.

Lemma ExistsEmailOrUsername_lookups_witness :
  ExistsEmailOrUsername "alice" "nobody@example.org"
    (set_faults [false; true] sample_world)
  = (Ok true, set_faults [true] sample_world).
Proof.
  apply (proj1 (proj2 (ExistsEmailOrUsername_lookups "alice"
                         "nobody@example.org"
                         (set_faults [false; true] sample_world)))).
  - reflexivity.
  - exists alice. split; [now left|]. split; reflexivity.
  - discriminate.
Defined.

(** *** Updates by id *)

Lemma UpdateNamespace_ok userID namespaceID w :
  fst (next_fault w) = false ->
  UpdateNamespace userID namespaceID w
  = (Ok tt,
     set_store
       (update_users [(sq.namespace_id, sq.VInt namespaceID)]
          (sq.Eq sq.id (sq.VInt userID)) (store w))
       (snd (next_fault w))).
Proof.
  intros Hf. unfold UpdateNamespace, update.
  erewrite map_err_Ok; [reflexivity|]. now rewrite sqlx_Exec_ok.
Qed.

Lemma map_id_on {A} (f : A -> A) l :
  (forall a, In a l -> f a = a) -> map f l = l.
Proof.
  induction l as [|a l IH]; simpl; intros H; [reflexivity|].
  rewrite (H a) by now left. f_equal. apply IH. intros b Hb. apply H.
  now right.
Qed.

Lemma Forall2_map_rel {A} (R : A -> A -> Prop) (f : A -> A) l :
  (forall a, R a (f a)) -> Forall2 R l (map f l).
Proof. intros H. induction l; simpl; constructor; auto. Qed.

(** X13: an update can be read back.  With the database up, if
    [GetUser] returns a user for an id, then after [UpdateNamespace] on
    that id it returns the same user with the new namespace id, and after
    [UpdateLogin] it returns the same user with the client IP and the
    time of the update in the last-login columns. *)
Theorem update_then_GetUser (userID namespaceID : Z) (clientIP : string)
    (u : User.t) (w : World) :
  db_up w ->
  fst (GetUser userID w) = Ok (Some u) ->
  fst (GetUser userID (snd (UpdateNamespace userID namespaceID w)))
  = Ok (Some (User.set_NamespaceID namespaceID u))
  /\ fst (GetUser userID (snd (UpdateLogin userID clientIP w)))
     = Ok (Some (User.set_LastLoginIP (Some clientIP)
                   (User.set_LastLoginAt (Some (clock w (ticks w))) u))).
Proof.
  intros Hup. unfold GetUser. rewrite getUser_ok by calls_ok. simpl fst.
  set (P := fun r : User.t => (User.ID r =? userID)%Z && is_normal r).
  destruct (find P (users (store w))) as [r|] eqn:E;
    [|simpl; discriminate].
  simpl. intros [= <-].
  apply find_some in E as HP. destruct HP as (_ & HP).
  apply andb_true_iff in HP as (Hid & _). simpl in Hid.
  split.
  - rewrite UpdateNamespace_ok by calls_ok. simpl snd.
    rewrite getUser_ok by calls_ok. world_simpl. fold P.
    rewrite find_map_stable.
    + rewrite E. simpl. rewrite Hid. now rewrite !scan_columns.
    + intros a. unfold P. simpl.
      destruct (User.ID a =? userID)%Z eqn:Ea; simpl; now rewrite ?Ea.
  - rewrite UpdateLogin_ok by calls_ok. simpl snd.
    rewrite getUser_ok by calls_ok. world_simpl. fold P.
    rewrite find_map_stable.
    + rewrite E. simpl. rewrite Hid. now rewrite !scan_columns.
    + intros a. unfold P. simpl.
      destruct (User.ID a =? userID)%Z eqn:Ea; simpl; now rewrite ?Ea.
Qed.

Lemma update_then_GetUser_witness :
  fst (GetUser 1 (snd (UpdateNamespace 1 42 sample_world)))
  = Ok (Some (User.set_NamespaceID 42 alice)).
Proof.
  apply (update_then_GetUser 1 42 "192.0.2.7" alice sample_world
           (List.Forall_nil _) eq_refl).
Defined.

(** X14: what the updates do to the table.  With the database up,
    [UpdateNamespace] and [UpdateLogin] return no error and rewrite the
    named columns of every row that has the id, soft-deleted rows
    included; every other row, the session table and the namespace table
    stay as they are.  When no row has the id the store is left unchanged
    and no error says so. *)
Theorem updates_by_id (userID namespaceID : Z) (clientIP : string)
    (w : World) :
  db_up w ->
  let w1 := snd (UpdateNamespace userID namespaceID w) in
  let w2 := snd (UpdateLogin userID clientIP w) in
  fst (UpdateNamespace userID namespaceID w) = Ok tt
  /\ fst (UpdateLogin userID clientIP w) = Ok tt
  /\ Forall2
       (fun r r' =>
          (User.ID r = userID -> r' = User.set_NamespaceID namespaceID r)
          /\ (User.ID r <> userID -> r' = r))
       (users (store w)) (users (store w1))
  /\ Forall2
       (fun r r' =>
          (User.ID r = userID ->
           r' = User.set_LastLoginIP (Some clientIP)
                  (User.set_LastLoginAt (Some (clock w (ticks w))) r))
          /\ (User.ID r <> userID -> r' = r))
       (users (store w)) (users (store w2))
  /\ sessions (store w1) = sessions (store w)
  /\ namespaces (store w1) = namespaces (store w)
  /\ sessions (store w2) = sessions (store w)
  /\ namespaces (store w2) = namespaces (store w)
  /\ ((forall r, In r (users (store w)) -> User.ID r <> userID) ->
      store w1 = store w /\ store w2 = store w).
Proof.
  intros Hup w1 w2. subst w1 w2.
  rewrite UpdateNamespace_ok, UpdateLogin_ok by calls_ok.
  simpl fst. simpl snd. world_simpl.
  split; [reflexivity|]. split; [reflexivity|].
  split; [|split].
  - apply Forall2_map_rel. intros a. split.
    + intros ->. now rewrite Z.eqb_refl.
    + intros Hne. apply Z.eqb_neq in Hne. now rewrite Hne.
  - apply Forall2_map_rel. intros a. split.
    + intros ->. now rewrite Z.eqb_refl.
    + intros Hne. apply Z.eqb_neq in Hne. now rewrite Hne.
  - split; [reflexivity|]. split; [reflexivity|].
    split; [reflexivity|]. split; [reflexivity|].
    intros Hno. split.
    + unfold update_users. simpl. rewrite map_id_on; [now destruct (store w)|].
      intros a Ha. apply Hno in Ha. apply Z.eqb_neq in Ha. now rewrite Ha.
    + unfold update_users. simpl. rewrite map_id_on; [now destruct (store w)|].
      intros a Ha. apply Hno in Ha. apply Z.eqb_neq in Ha. now rewrite Ha.
Qed.

Lemma updates_by_id_witness :
  db_up sample_world
  /\ fst (UpdateLogin 77 "192.0.2.7" sample_world) = Ok tt
  /\ store (snd (UpdateLogin 77 "192.0.2.7" sample_world))
     = store sample_world
  /\ User.NamespaceID <$> users (store (snd (UpdateNamespace 2 9 sample_world)))
     = [1; 9; 3].
Proof.
  split; [constructor|].
  pose proof (updates_by_id 77 0 "192.0.2.7" sample_world
                (List.Forall_nil _)) as (_ & Hok & _ & _ & _ & _ & _ & _ & Hno).
  split; [exact Hok|]. split; [|reflexivity].
  apply Hno. intros r [<-|[<-|[<-|[]]]]; discriminate.
Defined.

(** *** More on namespace enrichment *)

Lemma Forall2_In_r_ex {A B} (R : A -> B -> Prop) l k y :
  Forall2 R l k -> In y k -> exists x, In x l /\ R x y.
Proof.
  induction 1 as [|x y' l k HR HF IH]; simpl; [contradiction|].
  intros [->|Hy].
  - exists x. auto.
  - destruct (IH Hy) as (x' & Hx' & HR'). exists x'. auto.
Qed.

Lemma Forall2_map_r_intro {A B} (R R' : A -> B -> Prop) (f : B -> B) l k :
  Forall2 R l k -> (forall x y, R x y -> R' x (f y)) ->
  Forall2 R' l (map f k).
Proof. induction 1; simpl; constructor; auto. Qed.

Lemma Forall2_map_r_elim {A B} (R : A -> B -> Prop) (f : B -> B) l k :
  Forall2 R l (map f k) -> Forall2 (fun x y => R x (f y)) l k.
Proof.
  revert l. induction k as [|y k IH]; simpl; intros l H;
    inversion H; subst; constructor; auto.
Qed.

Lemma find_app_or {A} (p : A -> bool) l l' :
  find p (l ++ l') = match find p l with
                     | Some x => Some x
                     | None => find p l'
                     end.
Proof.
  induction l as [|a l IH]; simpl; [reflexivity|].
  now destruct (p a).
Qed.

Lemma enriched_cons n ns obj :
  enriched (n :: ns) obj
  = enriched ns (if (Namespace.OwnerID n =? User.ID obj)%Z
                 then User.set_ns (Some n) obj else obj).
Proof.
  unfold enriched. simpl rev. rewrite find_app_or. simpl.
  destruct (Namespace.OwnerID n =? User.ID obj)%Z eqn:E; simpl;
    destruct (find _ (rev ns)); reflexivity.
Qed.

Lemma collect_users_run h ps objs :
  Forall2 (points_to h) ps objs ->
  forall ids0 m0,
  exists m,
    collect_users h ps ids0 m0 = Ok ((ids0 ++ map User.ID objs)%list, m)
    /\ (forall k, ~ In k (map User.ID objs) -> m !! k = m0 !! k)
    /\ (List.NoDup (map User.ID objs) ->
        Forall2 (fun p obj => m !! User.ID obj = Some p) ps objs).
Proof.
  induction 1 as [|p obj ps objs (a & -> & Ha) HF IH]; intros ids0 m0;
    cbn [collect_users map].
  - exists m0. rewrite app_nil_r. repeat split; auto.
  - destruct (IH (ids0 ++ [User.ID obj])%list
                (<[User.ID obj := (Some a : ptr)]> m0))
      as (m & Hc & Hother & Hnd).
    exists m. split; [now rewrite Ha, Hc, <- app_assoc|]. split.
    + intros k Hk. rewrite Hother by (intros Hin; apply Hk; now right).
      apply lookup_insert_ne. intros <-. apply Hk. now left.
    + intros Hnodup. inversion Hnodup as [|? ? Hnotin Hnd']; subst.
      constructor; [|now apply Hnd].
      rewrite Hother by exact Hnotin. apply lookup_insert_eq.
Qed.

Lemma fill_namespaces_run (m : gmap Z ptr) ns : forall h ps objs,
  Forall2 (fun p obj => points_to h p obj /\ m !! User.ID obj = Some p)
    ps objs ->
  Forall (fun n => In (Namespace.OwnerID n) (map User.ID objs)) ns ->
  exists h',
    fill_namespaces m ns h = Ok h'
    /\ Forall2 (fun p obj => points_to h' p (enriched ns obj)) ps objs.
Proof.
  induction ns as [|n ns IH]; intros h ps objs HF Hall;
    cbn [fill_namespaces].
  - exists h. split; [reflexivity|].
    eapply Forall2_impl; [exact HF|]. intros p obj [Hp _]. exact Hp.
  - inversion Hall as [|? ? Hin Hall']; subst.
    apply in_map_iff in Hin as (on & Hon & Hin).
    destruct (Forall2_In_r_ex _ _ _ _ HF Hin)
      as (pn & _ & (an & -> & Han) & Hmn).
    destruct (IH (alter (User.set_ns (Some n)) an h) ps
                (map (fun o => if (Namespace.OwnerID n =? User.ID o)%Z
                               then User.set_ns (Some n) o else o) objs))
      as (h' & Hfill & HF').
    + eapply Forall2_map_r_intro; [exact HF|].
      intros p obj ((a & -> & Ha) & Hm). split.
      * exists a. split; [reflexivity|].
        destruct (decide (an = a)) as [->|Hne].
        -- rewrite lookup_alter_eq, Ha. simpl.
           assert (obj = on) by congruence. subst obj.
           now rewrite <- Hon, Z.eqb_refl.
        -- rewrite lookup_alter_ne by exact Hne. rewrite Ha. f_equal.
           destruct (Namespace.OwnerID n =? User.ID obj)%Z eqn:E;
             [|reflexivity].
           apply Z.eqb_eq in E. exfalso. apply Hne.
           rewrite Hon, E, Hm in Hmn. congruence.
      * now destruct (Namespace.OwnerID n =? User.ID obj)%Z.
    + rewrite map_map.
      erewrite map_ext; [exact Hall'|].
      intros o. simpl. now destruct (Namespace.OwnerID n =? User.ID o)%Z.
    + exists h'. split.
      { assert (Hd : map_index m (Namespace.OwnerID n) = Some an).
        { unfold map_index. rewrite <- Hon.
          exact (f_equal (default None) Hmn). }
        now rewrite Hd. }
      apply Forall2_map_r_elim in HF'.
      eapply Forall2_impl; [exact HF'|].
      intros p obj Hp. simpl in Hp. now rewrite enriched_cons.
Qed.

Lemma fill_namespaces_columns (m : gmap Z ptr) ns : forall h h',
  fill_namespaces m ns h = Ok h' ->
  forall a, columns_of <$> (h' !! a) = columns_of <$> (h !! a).
Proof.
  induction ns as [|n ns IH]; simpl; intros h h' H a.
  - now injection H as <-.
  - destruct (map_index m (Namespace.OwnerID n)) as [an|]; [|discriminate].
    rewrite (IH _ _ H a), lookup_alter. case_decide; [|reflexivity].
    subst. now destruct (h !! a).
Qed.

Lemma fill_namespaces_untouched (m : gmap Z ptr) ns a : forall h h',
  (forall k, m !! k <> Some (Some a)) ->
  fill_namespaces m ns h = Ok h' -> h' !! a = h !! a.
Proof.
  induction ns as [|n ns IH]; simpl; intros h h' Hm H.
  - now injection H as <-.
  - unfold map_index in H.
    destruct (m !! Namespace.OwnerID n) as [[an|]|] eqn:E; simpl in H;
      try discriminate.
    rewrite (IH _ _ Hm H). apply lookup_alter_ne. intros ->.
    exact (Hm _ E).
Qed.

Lemma collect_users_values h users : forall ids0 m0 ids m k p,
  collect_users h users ids0 m0 = Ok (ids, m) ->
  m !! k = Some p -> In p users \/ m0 !! k = Some p.
Proof.
  induction users as [|u rest IH]; simpl; intros ids0 m0 ids m k p Hc Hk.
  - injection Hc as <- <-. now right.
  - destruct u as [a|]; [|discriminate].
    destruct (h !! a) as [obj|]; [|discriminate].
    destruct (IH _ _ _ _ _ _ Hc Hk) as [Hin|Hk0]; [left; now right|].
    destruct (decide (User.ID obj = k)) as [<-|Hne].
    + rewrite lookup_insert_eq in Hk0. injection Hk0 as <-. left. now left.
    + rewrite lookup_insert_ne in Hk0 by exact Hne. now right.
Qed.

Lemma alloc_all_spec rows : forall h ps h1,
  alloc_all rows h = (ps, h1) ->
  h ⊆ h1 /\ Forall2 (points_to h1) ps rows.
Proof.
  induction rows as [|r rows IH]; simpl; intros h ps h1 H.
  - injection H as <- <-. split; [reflexivity|constructor].
  - destruct (alloc_all rows (<[fresh (dom h) := r]> h)) as [ps' h'] eqn:E.
    injection H as <- <-. destruct (IH _ _ _ E) as (Hsub & HF).
    assert (Hnone : h !! fresh (dom h) = None)
      by (apply not_elem_of_dom, is_fresh).
    split.
    + etransitivity; [apply insert_subseteq, Hnone|exact Hsub].
    + constructor; [|exact HF]. exists (fresh (dom h)).
      split; [reflexivity|].
      eapply lookup_weaken; [apply lookup_insert_eq|exact Hsub].
Qed.

Section EnrichmentMoreProps.

Variable ListNamespacesByOwner :
  Namespace.OwnerKind -> list Z ->
  World -> (list Namespace.t * option errors.Error) * World.

Lemma fillNamespaceInUsers_Ok_inv users h w h' w' :
  fillNamespaceInUsers ListNamespacesByOwner users h w = (Ok h', w') ->
  exists ids m ns,
    collect_users h users [] ∅ = Ok (ids, m)
    /\ ListNamespacesByOwner Namespace.TypeUser ids w = ((ns, None), w')
    /\ fill_namespaces m ns h = Ok h'.
Proof.
  unfold fillNamespaceInUsers. intros H.
  apply bind_Ok_inv in H as ([ids m] & w1 & Hc & H).
  unfold lift_res in Hc. injection Hc as Hc <-.
  apply bind_Ok_inv in H as (ns & w2 & HL & H).
  unfold lift_res in H. injection H as H <-.
  unfold go_call in HL. simpl in HL.
  destruct (ListNamespacesByOwner Namespace.TypeUser ids w)
    as [[ns' [e|]] w3] eqn:HL'; [discriminate|].
  injection HL as -> ->. simpl in H. exists ids, m, ns.
  repeat split; assumption.
Qed.

(** X15: when [fillNamespaceInUsers] returns, it has written nothing but
    namespace references: every object in memory has the columns it had
    before, and an object that the input slice does not point to is
    exactly as it was. *)
Theorem fillNamespaceInUsers_writes_only_ns (users : list ptr)
    (h : gmap nat User.t) (w : World) (h' : gmap nat User.t) (w' : World) :
  fillNamespaceInUsers ListNamespacesByOwner users h w = (Ok h', w') ->
  (forall a, columns_of <$> (h' !! a) = columns_of <$> (h !! a))
  /\ (forall a, ~ In (Some a) users -> h' !! a = h !! a).
Proof.
  intros H.
  apply fillNamespaceInUsers_Ok_inv in H as (ids & m & ns & Hc & _ & Hf).
  split.
  - exact (fill_namespaces_columns m ns h h' Hf).
  - intros a Ha. apply (fill_namespaces_untouched m ns a h h'); [|exact Hf].
    intros k Hk.
    destruct (collect_users_values h users [] ∅ ids m k (Some a) Hc Hk)
      as [Hin|He]; [exact (Ha Hin)|].
    rewrite lookup_empty in He. discriminate.
Qed.

(** X16: what the enrichment fills in.  When the slice points to objects
    with pairwise different ids, the query goes through and every
    namespace it returns is owned by one of those ids, then
    [fillNamespaceInUsers] returns, and each object is left with the last
    returned namespace that it owns in its namespace reference, or, when
    it owns none of them, as it was. *)
Theorem fillNamespaceInUsers_fills (users : list ptr) (objs : list User.t)
    (h : gmap nat User.t) (w : World) (ns : list Namespace.t) (w' : World) :
  Forall2 (points_to h) users objs ->
  List.NoDup (map User.ID objs) ->
  ListNamespacesByOwner Namespace.TypeUser (map User.ID objs) w
  = ((ns, None), w') ->
  Forall (fun n => In (Namespace.OwnerID n) (map User.ID objs)) ns ->
  exists h',
    fillNamespaceInUsers ListNamespacesByOwner users h w = (Ok h', w')
    /\ Forall2 (fun p obj => points_to h' p (enriched ns obj)) users objs.
Proof.
  intros Hpts Hnd HL Hown.
  destruct (collect_users_run h users objs Hpts [] ∅)
    as (m & Hc & _ & Hm).
  destruct (fill_namespaces_run m ns h users objs) as (h' & Hf & HF).
  { specialize (Hm Hnd). clear -Hpts Hm.
    induction Hpts; inversion Hm; subst; constructor; auto. }
  { exact Hown. }
  exists h'. split; [|exact HF].
  unfold fillNamespaceInUsers.
  erewrite bind_Ok by (unfold lift_res; rewrite Hc; reflexivity).
  erewrite bind_Ok by (unfold go_call; simpl; rewrite HL; reflexivity).
  unfold lift_res. simpl. now rewrite Hf.
Qed.

Lemma fillNamespaceInUsers_cases users h w ids m :
  collect_users h users [] ∅ = Ok (ids, m) ->
  fillNamespaceInUsers ListNamespacesByOwner users h w
  = match ListNamespacesByOwner Namespace.TypeUser ids w with
    | ((_, Some e), w') => (Err e, w')
    | ((ns, None), w') => (fill_namespaces m ns h, w')
    end.
Proof.
  intros Hc. unfold fillNamespaceInUsers.
  erewrite bind_Ok by (unfold lift_res; rewrite Hc; reflexivity).
  unfold mbind, M_bind, bind, go_call, lift_res. simpl.
  destruct (ListNamespacesByOwner Namespace.TypeUser ids w)
    as [[ns [e|]] w1]; reflexivity.
Qed.

(** X17: [ListAdminUsers] hands back the normal admins.  When the user
    query goes through and every namespace the namespace query returns is
    owned by one of the ids asked for, the call never panics; its only
    error is the namespace query's; and when it returns, the pointers it
    returns lead, in store order, to objects carrying the columns of the
    rows that are admins and not soft-deleted. *)
Theorem ListAdminUsers_returns_admins (h : gmap nat User.t) (w : World) :
  fst (next_fault w) = false ->
  (forall ids w0 ns w1,
      ListNamespacesByOwner Namespace.TypeUser ids w0 = ((ns, None), w1) ->
      Forall (fun n => In (Namespace.OwnerID n) ids) ns) ->
  let admins :=
    List.filter (fun r => User.IsAdmin r && is_normal r) (users (store w)) in
  match fst (ListAdminUsers ListNamespacesByOwner h w) with
  | Ok (ps, h') =>
      Forall2
        (fun p r => exists obj, points_to h' p obj
                                /\ columns_of obj = columns_of r)
        ps admins
  | Err e =>
      exists ns w1,
        ListNamespacesByOwner Namespace.TypeUser (map User.ID admins)
          (snd (next_fault w))
        = ((ns, Some e), w1)
  | Panic _ => False
  end.
Proof.
  intros Hf Hpre admins. unfold ListAdminUsers.
  erewrite bind_Ok by (apply listUsersByCond_ok; exact Hf).
  set (rows := select_users columns _ (store w)).
  assert (Hrows : rows = map (scan columns) admins).
  { subst rows admins. unfold select_users. f_equal.
    apply List.filter_ext. intros r. simpl.
    rewrite !andb_true_r. f_equal.
    - now destruct (User.IsAdmin r).
    - unfold is_normal. now destruct (User.DeletedAt r). }
  destruct (alloc_all rows h) as [ps h1] eqn:Ea.
  destruct (alloc_all_spec rows h ps h1 Ea) as (_ & Hpts).
  destruct (collect_users_run h1 ps rows Hpts [] ∅) as (m & Hc & _ & _).
  simpl app in Hc.
  assert (Hids : map User.ID rows = map User.ID admins).
  { rewrite Hrows, map_map. apply map_ext. intros r.
    now rewrite scan_columns. }
  rewrite Hids in Hc.
  pose proof (fillNamespaceInUsers_cases ps h1 (snd (next_fault w)) _ _ Hc)
    as Hcases.
  destruct (ListNamespacesByOwner Namespace.TypeUser (map User.ID admins)
              (snd (next_fault w))) as [[ns [e|]] w1] eqn:HL.
  - erewrite bind_Err by exact Hcases. simpl. eauto.
  - destruct (fill_namespaces_Ok m ns h1) as (h2 & Hfill).
    { eapply List.Forall_impl; [|exact (Hpre _ _ _ _ HL)].
      intros n Hn. simpl in Hn.
      apply (collect_users_keys h1 ps [] ∅ _ m Hc); [|exact Hn].
      intros k []. }
    rewrite Hfill in Hcases.
    erewrite bind_Ok by exact Hcases. simpl.
    rewrite Hrows in Hpts.
    apply Forall2_map_r_elim in Hpts.
    eapply Forall2_impl; [exact Hpts|].
    intros p r (a & -> & Ha). simpl in Ha.
    pose proof (fill_namespaces_columns m ns h1 h2 Hfill a) as Hcol.
    rewrite Ha, scan_columns in Hcol.
    destruct (h2 !! a) as [obj|] eqn:E2; [|discriminate].
    exists obj. split.
    + exists a. auto.
    + cbn [fmap option_fmap option_map] in Hcol.
      change (columns_of (User.set_ns None r)) with (columns_of r) in Hcol.
      congruence.
Qed.

End EnrichmentMoreProps.

Lemma fillNamespaceInUsers_writes_only_ns_witness :
  let h' := <[0%nat := User.set_ns
                         (Some (Namespace.mk 1 Namespace.TypeUser "alice"))
                         alice]> sample_heap in
  fillNamespaceInUsers sample_ListNamespacesByOwner [Some 0%nat] sample_heap
    sample_world = (Ok h', sample_world)
  /\ h' !! 1%nat = sample_heap !! 1%nat.
Proof.
  intros h'.
  assert (Hrun : fillNamespaceInUsers sample_ListNamespacesByOwner
                   [Some 0%nat] sample_heap sample_world
                 = (Ok h', sample_world)) by (vm_compute; reflexivity).
  split; [exact Hrun|].
  apply (proj2 (fillNamespaceInUsers_writes_only_ns
                  sample_ListNamespacesByOwner [Some 0%nat] sample_heap
                  sample_world h' sample_world Hrun) 1%nat).
  intros [H|[]]. discriminate.
Defined.

Lemma fillNamespaceInUsers_fills_witness :
  exists h',
    fillNamespaceInUsers sample_ListNamespacesByOwner
      [Some 0%nat; Some 1%nat] enrich_heap sample_world
    = (Ok h', sample_world)
    /\ Forall2
         (fun p obj =>
            points_to h' p
              (enriched [Namespace.mk 1 Namespace.TypeUser "alice"] obj))
         [Some 0%nat; Some 1%nat] [alice; dave_object].
Proof.
  apply (fillNamespaceInUsers_fills sample_ListNamespacesByOwner
           [Some 0%nat; Some 1%nat] [alice; dave_object] enrich_heap
           sample_world [Namespace.mk 1 Namespace.TypeUser "alice"]
           sample_world).
  - constructor; [exists 0%nat; split; reflexivity|].
    constructor; [exists 1%nat; split; reflexivity|constructor].
  - simpl. constructor; [simpl; intuition discriminate|].
    constructor; [simpl; tauto|constructor].
  - reflexivity.
  - constructor; [simpl; auto|constructor].
Defined.

Lemma ListAdminUsers_returns_admins_witness :
  match fst (ListAdminUsers sample_ListNamespacesByOwner ∅ sample_world) with
  | Ok (ps, h') =>
      Forall2
        (fun p r => exists obj, points_to h' p obj
                                /\ columns_of obj = columns_of r)
        ps [carol]
  | Err e =>
      exists ns w1,
        sample_ListNamespacesByOwner Namespace.TypeUser [3] sample_world
        = ((ns, Some e), w1)
  | Panic _ => False
  end.
Proof.
  apply (ListAdminUsers_returns_admins sample_ListNamespacesByOwner ∅
           sample_world eq_refl).
  intros ids w0 ns w1. unfold sample_ListNamespacesByOwner.
  intros [= <- _]. apply List.Forall_forall. intros n Hn.
  apply filter_In in Hn as (_ & Hn).
  destruct (Namespace.OwnerType n); [|discriminate].
  apply existsb_exists in Hn as (k & Hk & Hn).
  apply Z.eqb_eq in Hn. now rewrite Hn.
Defined.

(** *** Failures of the driver, for the writes *)

(** X18: what the writes do when the driver fails: [AddUser],
    [ActivateUser], [UpdateLogin] and [UpdateNamespace] each return the
    driver's error wrapped as an SQL error and leave every table as it
    was. *)
Theorem writes_on_driver_failure (w : World) :
  fst (next_fault w) = true ->
  let wrapped := errors.Wrap errors.DriverErr in
  (forall next_id user,
      fst (AddUser next_id user w) = Err wrapped
      /\ store (snd (AddUser next_id user w)) = store w)
  /\ (forall userID,
      fst (ActivateUser userID w) = Err wrapped
      /\ store (snd (ActivateUser userID w)) = store w)
  /\ (forall userID clientIP,
      fst (UpdateLogin userID clientIP w) = Err wrapped
      /\ store (snd (UpdateLogin userID clientIP w)) = store w)
  /\ (forall userID namespaceID,
      fst (UpdateNamespace userID namespaceID w) = Err wrapped
      /\ store (snd (UpdateNamespace userID namespaceID w)) = store w).
Proof.
  intros Hf wrapped. repeat split; intros.
  - now rewrite AddUser_bad.
  - rewrite AddUser_bad by assumption. apply nf_store.
  - unfold ActivateUser. erewrite bind_Ok by reflexivity.
    unfold map_err. now rewrite sqlx_Exec_bad by now rewrite nf_set_ticks.
  - unfold ActivateUser. erewrite bind_Ok by reflexivity.
    unfold map_err. rewrite sqlx_Exec_bad by now rewrite nf_set_ticks.
    world_simpl. reflexivity.
  - now rewrite UpdateLogin_bad.
  - rewrite UpdateLogin_bad by assumption. world_simpl. reflexivity.
  - unfold UpdateNamespace, update, map_err. now rewrite sqlx_Exec_bad.
  - unfold UpdateNamespace, update, map_err.
    rewrite sqlx_Exec_bad by assumption. apply nf_store.
Qed.

Lemma writes_on_driver_failure_witness :
  fst (AddUser sample_next_id dave (set_faults [true] sample_world))
  = Err (errors.Wrap errors.DriverErr)
  /\ store (snd (ActivateUser 3 (set_faults [true] sample_world)))
     = sample_store.
Proof.
  pose proof (writes_on_driver_failure (set_faults [true] sample_world)
                eq_refl) as (Hadd & Hact & _).
  split; [apply Hadd|apply Hact].
Defined.
